(** * Bakefile: expression algebra, AST-to-model builder, dependency ledger

    A shallow embedding of three parts of Bakefile:
    - [src/bkl/expr.py]: the expression tree with [simplify], [split] and
      [all_possible_values];
    - [src/bkl/interpreter/builder.py]: [Builder.handle_children] and
      [Builder.on_assignment];
    - [bakefile/src/dependencies.py]: the dependency ledger with [load] and
      [needsUpdate].

    Python exceptions are values of [Exception]; a computation that may raise
    returns a [Result].  Source positions ([pos] attributes) carry no
    behaviour and are left out; expressions are compared structurally. *)

From stdpp Require Import gmap strings list.
From Stdlib Require Import Ascii ZArith Lia.

Set Warnings "-register-all".

Local Open Scope string_scope.
Local Open Scope list_scope.

(** ** Expressions (bkl/expr.py) *)

(** A scope of the model tree is addressed by its path from the root, inner
    most index first, so that the parent of a scope is the tail of its handle.
    [ReferenceExpr.context] holds such a handle, or [None] as long as the
    builder's [context] attribute is still [None]. *)
Definition Handle : Type := list nat.
Definition Context : Type := option Handle.

Inductive Anchor : Type :=
| ANCHOR_SRCDIR
| ANCHOR_TOP_SRCDIR.

Inductive BoolOp : Type := AND | OR | NOT | EQUAL | NOT_EQUAL.

(** The classes of expr.py.  [BoolValueExpr], [BoolExpr] and [IfExpr] are used
    by builder.py, but their class declarations are not part of the available
    expr.py: they are modelled from the spec, which has BoolValue(bool),
    Bool(op, left, right?) with a unary NOT, and If(cond, yes, no). *)
Inductive Expr : Type :=
| LiteralExpr (value : string)
| ListExpr (items : list Expr)
| ConcatExpr (items : list Expr)
| NullExpr
| ReferenceExpr (var : string) (context : Context)
| PathExpr (components : list Expr) (anchor : Anchor)
| BoolValueExpr (value : bool)
| BoolExpr (operator : BoolOp) (left : Expr) (right : option Expr)
| IfExpr (cond yes no : Expr).

(** Modelled from the spec: the type tags of bkl/vartypes.py, which is not
    part of the available sources.  A variable from a free assignment is
    [AnyType] and may be promoted to [ListType]; a property brings its own
    type, named here by [OtherType] when it is neither. *)
Inductive VarType : Type :=
| AnyType
| ListType (item_type : VarType)
| OtherType (type_name : string).

(** The messages of the [ParserError]s of [Builder.on_assignment], with the
    values interpolated into them. *)
Inductive ParserMessage : Type :=
| unknown_variable (varname : string)
| cannot_append_to_non_list_variable (varname : string) (type : VarType).

Inductive Exception : Type :=
| Error (msg : string)
| CannotSplitError (e : Expr) (sep : string)
| NoPossibleValuesError (e : Expr)
| ParserError (msg : ParserMessage)
| AssertionError
| IndexError
| AttributeError
| TypeError
| IOError
| OSError
| EOFError
| RuntimeError.

Inductive Result (A : Type) : Type :=
| Ok (a : A)
| Raise (exn : Exception).
Arguments Ok {A} a.
Arguments Raise {A} exn.

#[global] Instance Result_ret : MRet Result := fun A a => Ok a.
#[global] Instance Result_bind : MBind Result := fun A B f r =>
  match r with
  | Ok a => f a
  | Raise exn => Raise exn
  end.

(** A list comprehension [[f(i) for i in l]] whose body may raise: items are
    evaluated left to right and the first exception aborts. *)
Section Comprehension.
Context {A B : Type} (f : A -> Result B).

Fixpoint comprehension (l : list A) : Result (list B) :=
  match l with
  | [] => Ok []
  | i :: rest =>
      match f i with
      | Raise exn => Raise exn
      | Ok i' =>
          match comprehension rest with
          | Raise exn => Raise exn
          | Ok rest' => Ok (i' :: rest')
          end
      end
  end.
End Comprehension.

Definition isinstance_LiteralExpr (e : Expr) : bool :=
  match e with LiteralExpr _ => true | _ => false end.
Definition isinstance_ReferenceExpr (e : Expr) : bool :=
  match e with ReferenceExpr _ _ => true | _ => false end.
Definition isinstance_ListExpr (e : Expr) : bool :=
  match e with ListExpr _ => true | _ => false end.

Module expr.
Section WithModel.

(** [ModelPart.get_variable_value] lives in bkl/model.py, which is not part
    of the available sources; the expression functions are stated for an
    arbitrary lookup. *)
Variable get_variable_value : Context -> string -> Result Expr.

(** [ReferenceExpr.get_value] *)
Definition get_value (var : string) (context : Context) : Result Expr :=
  get_variable_value context var.

(** One round of the literal-merging loop of [simplify]:
    [if isinstance(i, LiteralExpr) and isinstance(out[-1], LiteralExpr):
         out[-1] = LiteralExpr(out[-1].value + i.value)
     else: out.append(i)] *)
Definition merge_step (out : list Expr) (i : Expr) : list Expr :=
  match i, last out with
  | LiteralExpr v, Some (LiteralExpr u) =>
      <[length out - 1 := LiteralExpr (u +:+ v)]> out
  | _, _ => out ++ [i]
  end.

Fixpoint simplify (e : Expr) : Result Expr :=
  match e with
  | ListExpr items =>
      items' ← comprehension simplify items;
      Ok (ListExpr items')
  | PathExpr components anchor =>
      components' ← comprehension simplify components;
      Ok (PathExpr components' anchor)
  | ConcatExpr items =>
      items' ← comprehension simplify items;
      match items' with
      | [] => Raise IndexError
      | i0 :: rest => Ok (ConcatExpr (fold_left merge_step rest [i0]))
      end
  | ReferenceExpr var context =>
      ref ← get_value var context;
      if isinstance_LiteralExpr e || isinstance_ReferenceExpr e
      then Ok ref
      else Ok e
  | _ => Ok e
  end.

(** [str.split(sep)] for a one-character separator: empty segments are
    kept, and the empty string splits into one empty segment. *)
Fixpoint str_split (sep : ascii) (s : string) : list string :=
  match s with
  | EmptyString => [EmptyString]
  | String c rest =>
      if Ascii.eqb c sep then EmptyString :: str_split sep rest
      else match str_split sep rest with
           | seg :: segs => String c seg :: segs
           | [] => [String c EmptyString]
           end
  end.

(** The body of the loop of [split] over the items of a [ConcatExpr], after
    [i_out = split(i, sep)]:
    [if out: out = out[:-1] + [ConcatExpr([out[-1], i_out[0]])] + i_out[1:]
     else: out = i_out] *)
Definition splice (out i_out : list Expr) : Result (list Expr) :=
  match last out with
  | Some out_last =>
      match i_out with
      | [] => Raise IndexError
      | i_first :: i_rest =>
          Ok (take (length out - 1) out
                ++ [ConcatExpr [out_last; i_first]] ++ i_rest)
      end
  | None => Ok i_out
  end.

Section SplitLoop.
Variable split_item : Expr -> Result (list Expr).

Fixpoint split_loop (items : list Expr) (out : list Expr)
  : Result (list Expr) :=
  match items with
  | [] => Ok out
  | i :: rest =>
      i_out ← split_item i;
      out' ← splice out i_out;
      split_loop rest out'
  end.
End SplitLoop.

(** [split(e, sep)].  The recursion follows references, so it need not end
    (a variable may refer to itself); [depth] is the number of nested calls
    the interpreter's stack still allows, and running out of it is the
    interpreter's [RuntimeError]. *)
Fixpoint split (depth : nat) (e : Expr) (sep : string)
  : Result (list Expr) :=
  match depth with
  | O => Raise RuntimeError
  | S depth' =>
      match sep with
      | String c EmptyString =>
          match e with
          | LiteralExpr value => Ok (LiteralExpr <$> str_split c value)
          | ReferenceExpr var context =>
              v ← get_value var context;
              split depth' v sep
          | ConcatExpr items =>
              split_loop (fun i => split depth' i sep) items []
          | _ => Raise (CannotSplitError e sep)
          end
      | _ => Raise AssertionError
      end
  end.

(** What [all_possible_values] can yield: the literal it was given, a
    [ConcatExpr] or [PathExpr] built from yielded objects, or a generator
    object, i.e. a suspended call [all_possible_values(e)] that has not
    produced anything yet. *)
Inductive Object : Type :=
| ObjLiteralExpr (value : string)
| ObjConcatExpr (items : list Object)
| ObjPathExpr (components : list Object) (anchor : Anchor)
| ObjGenerator (e : Expr).

(** The [Expr] an object is, if it is one: a generator object is not, and
    neither is a [ConcatExpr] or [PathExpr] holding one. *)
Fixpoint as_Expr (o : Object) : option Expr :=
  match o with
  | ObjLiteralExpr value => Some (LiteralExpr value)
  | ObjConcatExpr items =>
      items' ← mapM as_Expr items; Some (ConcatExpr items')
  | ObjPathExpr components anchor =>
      components' ← mapM as_Expr components;
      Some (PathExpr components' anchor)
  | ObjGenerator _ => None
  end.

(** [itertools.product] of the pools: the right-most pool advances fastest. *)
Fixpoint product {A : Type} (pools : list (list A)) : list (list A) :=
  match pools with
  | [] => [[]]
  | pool :: pools' =>
      flat_map (fun x => cons x <$> product pools') pool
  end.

(** [all_possible_values(e)], run to exhaustion: the objects it yields, in
    order.  Every exception of the body is raised before its first
    [yield], so a run either raises or yields the whole list. *)
Fixpoint all_possible_values (e : Expr) : Result (list Object) :=
  match e with
  | ListExpr _ => Raise AssertionError
  | LiteralExpr value => Ok [ObjLiteralExpr value]
  | ReferenceExpr var context =>
      v ← get_value var context;
      Ok [ObjGenerator v]
  | ConcatExpr items =>
      possibilities ← comprehension all_possible_values items;
      match items with
      | [] => Raise AssertionError
      | _ => Ok (ObjConcatExpr <$> product possibilities)
      end
  | PathExpr components anchor =>
      possibilities ← comprehension all_possible_values components;
      Ok ((fun i => ObjPathExpr i anchor) <$> product possibilities)
  | _ => Raise (NoPossibleValuesError e)
  end.

(** [simplify(simplify(e))] *)
Definition simplify_twice (e : Expr) : Result Expr :=
  simplify e ≫= simplify.

(** Every reference that [simplify] looks up in [e], on its own or among the
    items of lists, concatenations and paths, refers to a value that
    [simplify] returns as it is. *)
Fixpoint references_settled (e : Expr) : Prop :=
  match e with
  | ListExpr items | ConcatExpr items | PathExpr items _ =>
      foldr (fun i rest => references_settled i /\ rest) True items
  | ReferenceExpr var context =>
      forall v, get_value var context = Ok v -> simplify v = Ok v
  | _ => True
  end.

(** No reference stands where [simplify] looks: neither [e] nor an item of a
    list, concatenation or path in it, at any depth, is a reference. *)
Fixpoint without_references (e : Expr) : bool :=
  match e with
  | ListExpr items | ConcatExpr items | PathExpr items _ =>
      forallb without_references items
  | ReferenceExpr _ _ => false
  | _ => true
  end.

(** No two neighbours in the list are both literals. *)
Fixpoint no_adjacent_literals (l : list Expr) : bool :=
  match l with
  | a :: (b :: _) as rest =>
      negb (isinstance_LiteralExpr a && isinstance_LiteralExpr b)
      && no_adjacent_literals rest
  | _ => true
  end.

End WithModel.

(** *** Evaluation and printing *)

(** The Python values [as_py] returns: a string, a list of values, or
    [None]. *)
Inductive PyValue : Type :=
| PyStr (s : string)
| PyList (values : list PyValue)
| PyNone.

(** What [as_py] raises: [NonConstError(self)] for an expression that is not
    a constant, and the [TypeError] of [str.join] for an item that is not a
    string. *)
Inductive EvalError : Type :=
| NonConstError (e : Expr)
| JoinTypeError.

Inductive Evaluated (A : Type) : Type :=
| Returned (a : A)
| Raised (exn : EvalError).
Arguments Returned {A} a.
Arguments Raised {A} exn.

(** [[f(i) for i in l]], or the generator of these values consumed at once:
    the first exception aborts. *)
Section Each.
Context {A B : Type} (f : A -> Evaluated B).

Fixpoint each (l : list A) : Evaluated (list B) :=
  match l with
  | [] => Returned []
  | i :: rest =>
      match f i with
      | Raised exn => Raised exn
      | Returned v =>
          match each rest with
          | Raised exn => Raised exn
          | Returned vs => Returned (v :: vs)
          end
      end
  end.
End Each.

(** [sep.join(strings)] *)
Fixpoint join_strings (sep : string) (strings : list string) : string :=
  match strings with
  | [] => EmptyString
  | [s] => s
  | s :: rest => s +:+ sep +:+ join_strings sep rest
  end.

(** The strings among values that are all strings. *)
Fixpoint strings_of (values : list PyValue) : option (list string) :=
  match values with
  | [] => Some []
  | PyStr s :: rest => cons s <$> strings_of rest
  | _ :: _ => None
  end.

(** [sep.join(values)]: every value has to be a string. *)
Definition join (sep : string) (values : list PyValue) : Evaluated PyValue :=
  match strings_of values with
  | Some strings => Returned (PyStr (join_strings sep strings))
  | None => Raised JoinTypeError
  end.

(** [str(anchor)] for the anchors [ANCHOR_SRCDIR] and [ANCHOR_TOP_SRCDIR]. *)
Definition anchor_text (anchor : Anchor) : string :=
  match anchor with
  | ANCHOR_SRCDIR => "@srcdir"
  | ANCHOR_TOP_SRCDIR => "@top_srcdir"
  end.

Section Evaluation.

(** [os.path.sep] *)
Variable os_path_sep : string.

(** [as_py] and [__str__] of [BoolValueExpr], [BoolExpr] and [IfExpr], whose
    classes are not part of the available expr.py. *)
Variable as_py_other : Expr -> Evaluated PyValue.
Variable str_other : Expr -> string.

(** The [as_py] methods of the expression classes; the evaluation context
    they are given is not looked at. *)
Fixpoint as_py (e : Expr) : Evaluated PyValue :=
  match e with
  | LiteralExpr value => Returned (PyStr value)
  | ListExpr items =>
      match each as_py items with
      | Returned values => Returned (PyList values)
      | Raised exn => Raised exn
      end
  | ConcatExpr items =>
      match each as_py items with
      | Returned values => join EmptyString values
      | Raised exn => Raised exn
      end
  | NullExpr => Returned PyNone
  | ReferenceExpr _ _ => Raised (NonConstError e)
  | PathExpr components _ =>
      match each as_py components with
      | Returned values => join os_path_sep values
      | Raised exn => Raised exn
      end
  | _ => as_py_other e
  end.

(** The [__str__] methods of the expression classes. *)
Fixpoint __str__ (e : Expr) : string :=
  match e with
  | LiteralExpr value => value
  | ListExpr items => "[" +:+ join_strings ", " (__str__ <$> items) +:+ "]"
  | ConcatExpr items => join_strings EmptyString (__str__ <$> items)
  | NullExpr => "null"
  | ReferenceExpr var _ => "$(" +:+ var +:+ ")"
  | PathExpr components anchor =>
      anchor_text anchor +:+ "/" +:+ join_strings "/" (__str__ <$> components)
  | _ => str_other e
  end.

End Evaluation.

(** A text: a literal, or a concatenation of at least one text. *)
Fixpoint is_text (e : Expr) : bool :=
  match e with
  | LiteralExpr _ => true
  | ConcatExpr items =>
      match items with [] => false | _ => forallb is_text items end
  | _ => false
  end.

(** How deep the concatenations of an expression nest. *)
Fixpoint nesting (e : Expr) : nat :=
  match e with
  | ConcatExpr items => S (foldr (fun i n => Nat.max (nesting i) n) O items)
  | _ => O
  end.

(** A constant: a literal, a concatenation of at least one constant, or a
    path of constants. *)
Fixpoint is_constant (e : Expr) : bool :=
  match e with
  | LiteralExpr _ => true
  | ConcatExpr items =>
      match items with [] => false | _ => forallb is_constant items end
  | PathExpr components _ => forallb is_constant components
  | _ => false
  end.

(** The character does not occur in the string. *)
Fixpoint free_of (c : ascii) (s : string) : bool :=
  match s with
  | EmptyString => true
  | String a rest => negb (Ascii.eqb a c) && free_of c rest
  end.

End expr.

(** ** Model (bkl/model.py) *)

Module model.

(** Modelled from the spec: [Variable] of bkl/model.py, which is not part of
    the available sources.  A variable has a name, an expression value and
    a type tag; its name is the key under which its scope holds it.
    ([Variable] is a reserved word, hence the longer name.) *)
Record ModelVariable : Type := mkVariable {
  value : Expr;
  type : VarType
}.

(** Modelled from the spec: a registered property descriptor, with its type
    and its default expression, computed from the scope. *)
Record Property : Type := mkProperty {
  prop_type : VarType;
  default_expr : Handle -> Expr
}.

(** Modelled from the spec: a scope (project, module or target) owns a
    variable environment. *)
Record ModelPart : Type := mkModelPart {
  variables : gmap string ModelVariable
}.

Definition empty_part : ModelPart := {| variables := ∅ |}.

(** Modelled from the spec: [ModelPart.get_variable] is scope-local only.
    A handle without a part has no variables. *)
Definition get_variable (parts : gmap Handle ModelPart)
    (scope : Handle) (name : string) : option ModelVariable :=
  variables (default empty_part (parts !! scope)) !! name.

(** Modelled from the spec: [ModelPart.resolve_variable] walks from the
    current scope toward the root and returns the first matching
    variable. *)
Fixpoint resolve_variable (parts : gmap Handle ModelPart)
    (scope : Handle) (name : string) : option ModelVariable :=
  match get_variable parts scope name with
  | Some var => Some var
  | None =>
      match scope with
      | [] => None
      | _ :: parent => resolve_variable parts parent name
      end
  end.

(** Modelled from the spec: [ModelPart.add_variable] puts the variable into
    the scope's environment. *)
Definition add_variable (scope : Handle) (name : string) (var : ModelVariable)
    (parts : gmap Handle ModelPart) : gmap Handle ModelPart :=
  <[scope := {| variables :=
      <[name := var]> (variables (default empty_part (parts !! scope))) |}]>
    parts.

(** Assignment to an attribute of a variable object that its scope holds:
    the change is seen through the scope. *)
Definition update_variable (scope : Handle) (name : string)
    (f : ModelVariable -> ModelVariable)
    (parts : gmap Handle ModelPart) : gmap Handle ModelPart :=
  match get_variable parts scope name with
  | Some var => add_variable scope name (f var) parts
  | None => parts
  end.

(** Modelled from the spec: [Variable.set_value] replaces the value. *)
Definition set_value (v : Expr) (var : ModelVariable) : ModelVariable :=
  {| value := v; type := type var |}.

Definition set_type (t : VarType) (var : ModelVariable) : ModelVariable :=
  {| value := value var; type := t |}.

(** Modelled from the spec: [Variable.from_property] gives the variable the
    property's type. *)
Definition from_property (prop : Property) (propval : Expr) : ModelVariable :=
  {| value := propval; type := prop_type prop |}.

(** Modelled from the spec: [ModelPart.get_variable_value], the lookup
    behind [ReferenceExpr.get_value], resolves the name from the scope of
    the reference and fails with an [Error] when nothing is found. *)
Definition get_variable_value (parts : gmap Handle ModelPart)
    (context : Context) (name : string) : Result Expr :=
  match context with
  | None => Raise AttributeError
  | Some scope =>
      match resolve_variable parts scope name with
      | Some var => Ok (value var)
      | None => Raise (Error "unknown variable")
      end
  end.

(** *** Scenarios *)

(** A module [[0]] with [x = $(y)], [y = a] and [srcs = [p.c, q.c]]. *)
Definition sample_parts : gmap Handle ModelPart :=
  {[ [0] := {| variables :=
       {[ "x" := {| value := ReferenceExpr "y" (Some [0]); type := AnyType |};
          "y" := {| value := LiteralExpr "a"; type := AnyType |};
          "srcs" := {| value := ListExpr [LiteralExpr "p.c"; LiteralExpr "q.c"];
                       type := ListType AnyType |} ]} |} ]}.

Definition sample_lookup : Context -> string -> Result Expr :=
  get_variable_value sample_parts.

End model.

(** ** Builder (bkl/interpreter/builder.py) *)

Module builder.
Import model.

(** Expression nodes of the AST (bkl/parser/ast.py), as
    [_build_expression] and [_build_bool_expression] tell them apart. *)
Inductive ExprNode : Type :=
| LiteralNode (text : string)
| BoolvalNode (value : bool)
| VarReferenceNode (var : string)
| ListNode (values : list ExprNode)
| ConcatNode (values : list ExprNode)
| NotNode (left : ExprNode)
| AndNode (left right : ExprNode)
| OrNode (left right : ExprNode)
| EqualNode (left right : ExprNode)
| NotEqualNode (left right : ExprNode).

(** Statement nodes: the entries of [_ast_dispatch] for assignments, [if]
    blocks and the empty statement.  The other statement kinds (files
    lists, targets, configurations, submodules, srcdir) rest on parts of
    the model and on collaborators that are not in the available sources;
    [handle_children] below is stated for any node type and any handler, so
    it covers them as well. *)
Inductive Node : Type :=
| AssignmentNode (var : string) (value : ExprNode)
| AppendNode (var : string) (value : ExprNode)
| IfNode (cond : ExprNode) (content : list Node)
| NilNode.

Inductive Warning : Type :=
| reserved_variable_name (varname : string).

(** The builder ([self]) together with the model objects it works on:
    [context] is [self.context]; [if_cond_stack] is the state of
    [CondTrackingMixin], innermost condition first; [parts] holds the model
    parts by handle; [warnings] collects what [warning()] reports. *)
Record Builder : Type := mkBuilder {
  context : Context;
  if_cond_stack : list Expr;
  parts : gmap Handle ModelPart;
  warnings : list Warning
}.

Definition set_context (c : Context) (self : Builder) : Builder :=
  {| context := c; if_cond_stack := if_cond_stack self;
     parts := parts self; warnings := warnings self |}.
Definition set_if_cond_stack (st : list Expr) (self : Builder) : Builder :=
  {| context := context self; if_cond_stack := st;
     parts := parts self; warnings := warnings self |}.
Definition set_parts (p : gmap Handle ModelPart) (self : Builder) : Builder :=
  {| context := context self; if_cond_stack := if_cond_stack self;
     parts := p; warnings := warnings self |}.
Definition warning (w : Warning) (self : Builder) : Builder :=
  {| context := context self; if_cond_stack := if_cond_stack self;
     parts := parts self; warnings := warnings self ++ [w] |}.

(** A method of the builder: it returns or raises, and either way leaves
    the builder and the model as it mutated them. *)
Definition M (A : Type) : Type := Builder -> Result A * Builder.

#[global] Instance M_ret : MRet M := fun A a self => (Ok a, self).
#[global] Instance M_bind : MBind M := fun A B f m self =>
  match m self with
  | (Ok a, self') => f a self'
  | (Raise exn, self') => (Raise exn, self')
  end.

Definition raise {A : Type} (exn : Exception) : M A :=
  fun self => (Raise exn, self).
Definition lift {A : Type} (r : Result A) : M A :=
  fun self => (r, self).
Definition gets {A : Type} (f : Builder -> A) : M A :=
  fun self => (Ok (f self), self).
Definition modify (f : Builder -> Builder) : M unit :=
  fun self => (Ok tt, f self).

(** Modelled from the spec: [CondTrackingMixin] is not part of the
    available sources.  The active condition is the conjunction of the
    conditions of all enclosing [if] blocks, or none. *)
Definition active_if_cond (self : Builder) : option Expr :=
  head (if_cond_stack self).

(** Modelled from the spec: [CondTrackingMixin.push_cond] descends into a
    new [if] block and records its condition. *)
Definition push_cond (cond : Expr) : M unit :=
  modify (fun self =>
    let cond' := match active_if_cond self with
                 | Some active => BoolExpr AND active (Some cond)
                 | None => cond
                 end in
    set_if_cond_stack (cond' :: if_cond_stack self) self).

(** Modelled from the spec: [CondTrackingMixin.pop_cond] leaves the
    block. *)
Definition pop_cond : M unit :=
  fun self =>
    match if_cond_stack self with
    | [] => (Raise IndexError, self)
    | _ :: st => (Ok tt, set_if_cond_stack st self)
    end.

(** [Builder._build_expression] with [Builder._build_bool_expression];
    [context] is [self.context].  [ConcatExpr]'s constructor asserts that
    it has at least one item. *)
Fixpoint _build_expression (context : Context) (ast : ExprNode)
  : Result Expr :=
  match ast with
  | LiteralNode text => Ok (LiteralExpr text)
  | BoolvalNode value => Ok (BoolValueExpr value)
  | VarReferenceNode var => Ok (ReferenceExpr var context)
  | ListNode values =>
      items ← comprehension (_build_expression context) values;
      Ok (ListExpr items)
  | ConcatNode values =>
      items ← comprehension (_build_expression context) values;
      match items with
      | [] => Raise AssertionError
      | _ => Ok (ConcatExpr items)
      end
  | NotNode lhs =>
      l ← _build_expression context lhs;
      Ok (BoolExpr NOT l None)
  | AndNode lhs rhs =>
      l ← _build_expression context lhs;
      r ← _build_expression context rhs;
      Ok (BoolExpr AND l (Some r))
  | OrNode lhs rhs =>
      l ← _build_expression context lhs;
      r ← _build_expression context rhs;
      Ok (BoolExpr OR l (Some r))
  | EqualNode lhs rhs =>
      l ← _build_expression context lhs;
      r ← _build_expression context rhs;
      Ok (BoolExpr EQUAL l (Some r))
  | NotEqualNode lhs rhs =>
      l ← _build_expression context lhs;
      r ← _build_expression context rhs;
      Ok (BoolExpr NOT_EQUAL l (Some r))
  end.

(** [Builder.handle_children], for any kind of node and any
    [_handle_node]. *)
Section HandleChildren.
Context {N : Type} (_handle_node : N -> M unit).

(** [for n in children: self._handle_node(n)] *)
Fixpoint for_children (children : list N) : M unit :=
  match children with
  | [] => mret tt
  | n :: rest => fun self =>
      match _handle_node n self with
      | (Ok _, self') => for_children rest self'
      | (Raise exn, self') => (Raise exn, self')
      end
  end.

Definition handle_children (children : list N) (ctxt : Context)
  : M unit :=
  fun self =>
    (* try: *)
    let old_ctxt := context self in
    let self1 := set_context ctxt self in
    let '(outcome, self2) := for_children children self1 in
    (* finally: *)
    (outcome, set_context old_ctxt self2).
End HandleChildren.

Section WithProperties.

(** [ModelPart.get_prop]: the property registered under a name for a
    scope, if any.  The registry is provided by the surrounding system. *)
Variable get_prop : Handle -> string -> option Property.

(** The value of a conditional append:
    [if isinstance(value, ListExpr):
         value = ListExpr([IfExpr(cond, yes=i, no=NullExpr())
                           for i in value.items])
     else: value = IfExpr(cond, yes=value, no=NullExpr())] *)
Definition conditional_append_value (cond value : Expr) : Expr :=
  match value with
  | ListExpr items => ListExpr ((fun i => IfExpr cond i NullExpr) <$> items)
  | _ => IfExpr cond value NullExpr
  end.

(** The value of a conditional plain assignment:
    [IfExpr(cond, yes=value,
            no=previous_value.value if previous_value else NullExpr())] *)
Definition conditional_set_value (cond value : Expr)
    (previous_value : option ModelVariable) : Expr :=
  IfExpr cond value
    (match previous_value with
     | Some pv => model.value pv
     | None => NullExpr
     end).

(** The value stored by an append:
    [new_values = value.items if isinstance(value, ListExpr) else [value]]
    and then the previous items, or the previous value as a singleton,
    followed by [new_values]. *)
Definition appended_value (previous value : Expr) : Expr :=
  let new_values :=
    match value with ListExpr items => items | _ => [value] end in
  match previous with
  | ListExpr items => ListExpr (items ++ new_values)
  | _ => ListExpr ([previous] ++ new_values)
  end.

(** [Builder.on_assignment], for [AssignmentNode] ([append] false) and
    [AppendNode] ([append] true).  [var] and [previous_value] are variable
    objects; the object [var] is held by the scope under [varname] from the
    moment it exists, so assignments to its attributes go through the
    scope. *)
Definition on_assignment (append : bool) (varname : string)
    (node_value : ExprNode) : M unit :=
  ctxt ← gets context;
  value ← lift (_build_expression ctxt node_value);
  active ← gets active_if_cond;
  let has_cond := match active with Some _ => true | None => false end in
  initial ← lift (match varname with
                  | EmptyString => Raise IndexError
                  | String c _ => Ok c
                  end);
  _ ← (if Ascii.eqb initial "_"%char
       then modify (warning (reserved_variable_name varname))
       else mret tt);
  scope ← lift (match ctxt with
                | None => Raise AttributeError
                | Some h => Ok h
                end);
  var ← gets (fun self => get_variable (parts self) scope varname);
  previous_value ←
    match var with
    | None => gets (fun self => resolve_variable (parts self) scope varname)
    | Some _ => mret var
    end;
  '(var, previous_value) ←
    match var, get_prop scope varname with
    | None, Some prop =>
        let propval :=
          if append || has_cond then default_expr prop scope
          else NullExpr in
        let var' := from_property prop propval in
        _ ← modify (fun self =>
              set_parts (add_variable scope varname var' (parts self)) self);
        mret (Some var',
              match previous_value with
              | None => Some var'
              | Some _ => previous_value
              end)
    | _, _ => mret (var, previous_value)
    end;
  let value :=
    match active with
    | Some cond =>
        if append then conditional_append_value cond value
        else conditional_set_value cond value previous_value
    | None => value
    end in
  var ←
    match var with
    | Some var' => mret var'
    | None =>
        match previous_value with
        | None =>
            if append then raise (ParserError (unknown_variable varname))
            else
              let var' := {| model.value := value; type := AnyType |} in
              _ ← modify (fun self =>
                    set_parts (add_variable scope varname var' (parts self))
                              self);
              mret var'
        | Some pv =>
            let var' := {| model.value := model.value pv;
                           type := type pv |} in
            _ ← modify (fun self =>
                  set_parts (add_variable scope varname var' (parts self))
                            self);
            mret var'
        end
    end;
  if append then
    pv ← lift (match previous_value with
               | None => Raise AssertionError
               | Some pv => Ok pv
               end);
    _ ← match type var with
        | ListType _ => mret tt
        | AnyType =>
            modify (fun self =>
              set_parts (update_variable scope varname
                           (set_type (ListType (type var))) (parts self))
                        self)
        | OtherType _ =>
            raise (ParserError
                     (cannot_append_to_non_list_variable varname (type var)))
        end;
    modify (fun self =>
      set_parts (update_variable scope varname
                   (set_value (appended_value (model.value pv) value))
                   (parts self))
                self)
  else
    modify (fun self =>
      set_parts (update_variable scope varname (set_value value)
                   (parts self))
                self).

(** The items an append concatenates onto: those of a previous value that is
    a list, and the previous value itself as the only item otherwise. *)
Definition previous_items (previous : Expr) : list Expr :=
  match previous with
  | ListExpr items => items
  | _ => [previous]
  end.

Definition is_Ok {A : Type} (r : Result A) : Prop := exists a, r = Ok a.

(** The previous value that steps 3 and 4 of the assignment find while a
    condition is active: the variable resolved from the scope outwards, or
    else a variable seeded with the default of the property of that name. *)
Definition conditional_previous_value (parts : gmap Handle ModelPart)
    (scope : Handle) (varname : string) : option ModelVariable :=
  match resolve_variable parts scope varname with
  | Some pv => Some pv
  | None =>
      (fun prop => from_property prop (default_expr prop scope))
        <$> get_prop scope varname
  end.

(** The type of the variable an assignment works on: that of the local
    variable, or else of the property of that name, or else of the variable
    found in an enclosing scope. *)
Definition assigned_type (parts : gmap Handle ModelPart)
    (scope : Handle) (varname : string) : option VarType :=
  match get_variable parts scope varname with
  | Some var => Some (type var)
  | None =>
      match get_prop scope varname with
      | Some prop => Some (prop_type prop)
      | None => type <$> resolve_variable parts scope varname
      end
  end.

(** [Builder._handle_node] with [Builder.on_if]: the dispatch over the
    node's type, [on_if] being
    [self.push_cond(self._build_expression(node.cond));
     self.handle_children(node.content, self.context);
     self.pop_cond()]. *)
Fixpoint _handle_node (node : Node) : M unit :=
  match node with
  | AssignmentNode var value => on_assignment false var value
  | AppendNode var value => on_assignment true var value
  | IfNode cond content =>
      ctxt ← gets context;
      c ← lift (_build_expression ctxt cond);
      _ ← push_cond c;
      ctxt' ← gets context;
      _ ← handle_children _handle_node content ctxt';
      pop_cond
  | NilNode => mret tt
  end.

End WithProperties.

(** A method keeps the context when [self.context] is the same after it as
    before it, whether it returns or raises. *)
Definition keeps_context {A : Type} (m : M A) : Prop :=
  forall self, context (m self).2 = context self.

(** *** Scenarios *)

(** A builder inside an empty module [[0]], with no condition active. *)
Definition fresh_builder : Builder :=
  {| context := Some [0]; if_cond_stack := [];
     parts := {[ [0] := empty_part ]}; warnings := [] |}.

(** No property is registered. *)
Definition no_properties : Handle -> string -> option Property :=
  fun _ _ => None.

(** [a = [1, 2]; if (c) a += [3]] and [a = [1, 2]; if (c) a = [3]] *)
Definition one_two : ExprNode := ListNode [LiteralNode "1"; LiteralNode "2"].
Definition three : ExprNode := ListNode [LiteralNode "3"].
Definition conditional_append_program (c : ExprNode) : list Node :=
  [AssignmentNode "a" one_two; IfNode c [AppendNode "a" three]].
Definition conditional_set_program (c : ExprNode) : list Node :=
  [AssignmentNode "a" one_two; IfNode c [AssignmentNode "a" three]].

(** The builder after [a = [1, 2]], inside [if ($(c))]. *)
Definition builder_in_if : Builder :=
  {| context := Some [0];
     if_cond_stack := [ReferenceExpr "c" (Some [0])];
     parts := {[ [0] := {| variables :=
                 {[ "a" := {| model.value :=
                                ListExpr [LiteralExpr "1"; LiteralExpr "2"];
                              type := AnyType |} ]} |} ]};
     warnings := [] |}.

(** A handler that moves the builder into another scope and then fails. *)
Definition leaving_handler (n : nat) : M unit :=
  fun self => (Raise (Error "failed"), set_context (Some [n]) self).

(** A builder inside the target [[1; 0]] of the module [[0]]; the module
    holds [flag], of the type [bool], and the list [defines]. *)
Definition builder_in_target : Builder :=
  {| context := Some [1%nat; 0%nat]; if_cond_stack := [];
     parts := {[ [0%nat] := {| variables :=
                   {[ "flag" := {| model.value := LiteralExpr "on";
                                   type := OtherType "bool" |};
                      "defines" := {| model.value :=
                                        ListExpr [LiteralExpr "A"];
                                      type := ListType AnyType |} ]} |};
                 [1%nat; 0%nat] := empty_part ]};
     warnings := [] |}.

(** *** The rest of the builder's expression entry points *)

(** [Builder.create_expression(ast, parent)]:
    [self.context = parent; return self._build_expression(ast)] *)
Definition create_expression (ast : ExprNode) (parent : Context) : M Expr :=
  _ ← modify (set_context parent);
  ctxt ← gets context;
  lift (_build_expression ctxt ast).

(** [Builder.create_model(ast, parent)], over the children of the root node:
    [mod = Module(parent, ...); self.context = mod;
     self.handle_children(ast.children, self.context);
     assert self.context is mod; return mod].
    The constructor of [Module] belongs to bkl/model.py, which is not part
    of the available sources: it is the parameter [new_module] here, which
    returns the handle of the new module and the model parts with the module
    added. *)
Section CreateModel.
Variable get_prop : Handle -> string -> option Property.
Variable new_module : Context -> gmap Handle ModelPart
                  -> Handle * gmap Handle ModelPart.

Definition create_model (children : list Node) (parent : Context)
  : M Handle :=
  module ← (fun self =>
           let '(h, ps) := new_module parent (parts self) in
           (Ok h, set_parts ps self));
  _ ← modify (set_context (Some module));
  ctxt ← gets context;
  _ ← handle_children (_handle_node get_prop) children ctxt;
  ctxt' ← gets context;
  _ ← (if bool_decide (ctxt' = Some module) then mret tt
       else raise AssertionError);
  mret module.
End CreateModel.

(** No concatenation node of the AST is without values. *)
Fixpoint well_formed (ast : ExprNode) : bool :=
  match ast with
  | LiteralNode _ | BoolvalNode _ | VarReferenceNode _ => true
  | ListNode values => forallb well_formed values
  | ConcatNode values =>
      match values with [] => false | _ => forallb well_formed values end
  | NotNode lhs => well_formed lhs
  | AndNode lhs rhs | OrNode lhs rhs | EqualNode lhs rhs
  | NotEqualNode lhs rhs => well_formed lhs && well_formed rhs
  end.

(** Every reference of the expression was made in the context [ctxt]. *)
Fixpoint references_in (ctxt : Context) (e : Expr) : Prop :=
  match e with
  | ReferenceExpr _ context => context = ctxt
  | ListExpr items | ConcatExpr items | PathExpr items _ =>
      foldr (fun i rest => references_in ctxt i /\ rest) True items
  | BoolExpr _ lhs rhs =>
      references_in ctxt lhs
      /\ match rhs with Some r => references_in ctxt r | None => True end
  | IfExpr cond yes no =>
      references_in ctxt cond /\ references_in ctxt yes
      /\ references_in ctxt no
  | _ => True
  end.

(** The builder [self'] differs from [self] at most in the variable
    [varname] of the scope [scope] and in the warnings: it has the same
    context and the same condition stack, and every other variable of every
    scope is the same. *)
Definition same_elsewhere (scope : Handle) (varname : string)
    (self self' : Builder) : Prop :=
  context self' = context self
  /\ if_cond_stack self' = if_cond_stack self
  /\ forall scope' name',
       (scope', name') <> (scope, varname) ->
       get_variable (parts self') scope' name'
       = get_variable (parts self) scope' name'.

(** Whatever the method does, returning or raising, the builder it leaves is
    related by [R] to the builder it found. *)
Definition relates {A : Type} (R : Builder -> Builder -> Prop) (m : M A)
  : Prop :=
  forall self, R self (m self).2.

(** The reserved-name warning that an assignment to [varname] emits. *)
Definition expected_warnings (varname : string) : list Warning :=
  match varname with
  | String c _ =>
      if Ascii.eqb c "_"%char then [reserved_variable_name varname] else []
  | EmptyString => []
  end.

(** The type an append leaves a variable of type [t] with. *)
Definition promoted (t : VarType) : VarType :=
  match t with
  | AnyType => ListType AnyType
  | _ => t
  end.

(** The items an append adds: those of a list value, or the value as the
    only item. *)
Definition new_items (value : Expr) : list Expr :=
  match value with
  | ListExpr items => items
  | _ => [value]
  end.

End builder.

(** ** Dependency ledger (bakefile/src/dependencies.py) *)

Module dependencies.

Local Open Scope Z_scope.

Definition DEPS_FORMAT_VERSION : Z := 4.

Record DepsRecord : Type := mkDepsRecord {
  deps : list string;
  outputs : list (string * string)  (* (filename, method) tuples *)
}.

(** A key is the tuple [(bakefile, format)]. *)
Definition Key : Type := string * string.

(** The module's global dictionaries.  Time stamps are compared and never
    computed with, so they are integers here, whether they come from
    [int(time.time())] or from [st_mtime]. *)
Record Globals : Type := mkGlobals {
  deps_db : gmap Key DepsRecord;
  modtimes_db : gmap string Z;
  cmdlines_db : gmap Key (list string)
}.

(** What the file system knows of a path that exists. *)
Record Stat : Type := mkStat {
  is_regular_file : bool;
  st_mtime : Z
}.

(** [os.path.isfile(f)] *)
Definition isfile (fs : gmap string Stat) (f : string) : bool :=
  match fs !! f with
  | Some st => is_regular_file st
  | None => false
  end.

(** [os.stat(f).st_mtime] *)
Definition stat_mtime (fs : gmap string Stat) (f : string) : Result Z :=
  match fs !! f with
  | Some st => Ok (st_mtime st)
  | None => Raise OSError
  end.

(** A loop body either leaves the function with [return], or goes on with
    the loop's variables. *)
Inductive Flow (R A : Type) : Type :=
| Return (r : R)
| Continue (a : A).
Arguments Return {R A} r.
Arguments Continue {R A} a.

(** [for f, method in info.outputs: ...], with [oldest_output] as the
    loop's variable. *)
Fixpoint outputs_loop (g : Globals) (fs : gmap string Stat)
    (outputs : list (string * string)) (oldest_output : option Z)
  : Result (Flow Z (option Z)) :=
  match outputs with
  | [] => Ok (Continue oldest_output)
  | (f, method) :: rest =>
      if negb (isfile fs f) then Ok (Return 1)
      else
        f_time ← stat_mtime fs f;
        let f_time :=
          match modtimes_db g !! f with
          | Some recorded => if recorded >? f_time then recorded else f_time
          | None => f_time
          end in
        let oldest_output :=
          match oldest_output with
          | None => Some f_time
          | Some oldest => if f_time <? oldest then Some f_time
                           else Some oldest
          end in
        outputs_loop g fs rest oldest_output
  end.

(** [for f in info.deps: ...] *)
Fixpoint deps_loop (fs : gmap string Stat) (deps : list string)
    (oldest_output : Z) : Result (Flow Z unit) :=
  match deps with
  | [] => Ok (Continue tt)
  | f :: rest =>
      if negb (isfile fs f) then Ok (Return 1)
      else
        f_time ← stat_mtime fs f;
        if oldest_output <? f_time then Ok (Return 1)
        else deps_loop fs rest oldest_output
  end.

(** [needsUpdate(bakefile, format, cmdline)]; it returns the integers 1
    (regenerate) and 0 (up to date) as truth values. *)
Definition needsUpdate (g : Globals) (fs : gmap string Stat)
    (bakefile format : string) (cmdline : list string) : Result Z :=
  let key := (bakefile, format) in
  match deps_db g !! key, cmdlines_db g !! key with
  | Some info, Some recorded_cmdline =>
      if bool_decide (cmdline ≠ recorded_cmdline) then Ok 1
      else
        bakefile_time ← stat_mtime fs bakefile;
        flow ← outputs_loop g fs (outputs info) None;
        match flow with
        | Return r => Ok r
        | Continue None => Ok 1
        | Continue (Some oldest_output) =>
            if oldest_output <? bakefile_time then Ok 1
            else
              flow' ← deps_loop fs (deps info) oldest_output;
              match flow' with
              | Return r => Ok r
              | Continue _ => Ok 0
              end
        end
  | _, _ => Ok 1
  end.

(** *** The staleness checks, as the specification words them *)

(** The effective output time of a file is the maximum of its recorded
    modtime and its on-disk mtime (the on-disk mtime alone when no modtime
    was recorded); a file that is not on disk has none. *)
Definition effective_time (g : Globals) (fs : gmap string Stat)
    (f : string) : option Z :=
  match fs !! f with
  | Some st =>
      match modtimes_db g !! f with
      | Some recorded => Some (Z.max recorded (st_mtime st))
      | None => Some (st_mtime st)
      end
  | None => None
  end.

Fixpoint minimum (times : list Z) : option Z :=
  match times with
  | [] => None
  | t :: rest =>
      match minimum rest with
      | None => Some t
      | Some m => Some (Z.min t m)
      end
  end.

(** The older of two times that may not exist. *)
Definition older_of (a b : option Z) : option Z :=
  match a, b with
  | None, _ => b
  | Some x, None => Some x
  | Some x, Some y => Some (Z.min x y)
  end.

(** The oldest effective time of the declared outputs, if there is one. *)
Definition oldest_effective_time (g : Globals) (fs : gmap string Stat)
    (info : DepsRecord) : option Z :=
  minimum (omap (fun o => effective_time g fs o.1) (outputs info)).

(** [a] is older than [b]; a time that does not exist is not older than
    anything, and nothing is older than it. *)
Definition older (a b : option Z) : bool :=
  match a, b with
  | Some x, Some y => x <? y
  | _, _ => false
  end.

Definition mtime (fs : gmap string Stat) (f : string) : option Z :=
  st_mtime <$> fs !! f.

(** None of the six conditions for regeneration applies. *)
Definition six_checks_pass (g : Globals) (fs : gmap string Stat)
    (bakefile format : string) (cmdline : list string) : bool :=
  match deps_db g !! (bakefile, format), cmdlines_db g !! (bakefile, format)
  with
  | Some info, Some recorded_cmdline =>                      (* 1 *)
      bool_decide (recorded_cmdline = cmdline)               (* 2 *)
      && forallb (fun o => isfile fs o.1) (outputs info)     (* 3 *)
      && forallb (isfile fs) (deps info)                     (* 4 *)
      && negb (older (oldest_effective_time g fs info)
                     (mtime fs bakefile))                    (* 5 *)
      && forallb (fun d => negb (older (oldest_effective_time g fs info)
                                       (mtime fs d)))
                 (deps info)                                 (* 6 *)
  | _, _ => false
  end.

(** The objects of a ledger file, in the order [save] dumps them: the
    format version, then the three dictionaries.  [PickledOther] stands for
    any other object. *)
Inductive Pickled : Type :=
| PickledInt (n : Z)
| PickledDeps (db : gmap Key DepsRecord)
| PickledModtimes (db : gmap string Z)
| PickledCmdlines (db : gmap Key (list string))
| PickledOther.

(** The state of [load]: the globals and the part of the opened file that
    has not been read yet. *)
Record Loading : Type := mkLoading {
  globals : Globals;
  unread : list Pickled
}.

(** [cPickle.load(f)] reads the next object of the file. *)
Definition cPickle_load (f : list Pickled) : Result Pickled * list Pickled :=
  match f with
  | [] => (Raise EOFError, [])
  | obj :: rest => (Ok obj, rest)
  end.

(** The nested function [__loadDb(f, orig_db)] of [load].  [as_db] tells
    whether the object read is a dictionary of the kind expected; one that
    is not is taken to fail with a [TypeError]. *)
Definition __loadDb {K V : Type} `{Countable K}
    (as_db : Pickled -> option (gmap K V))
    (f : list Pickled) (orig_db : gmap K V)
  : Result (gmap K V) * list Pickled :=
  match cPickle_load f with
  | (Raise exn, f') => (Raise exn, f')
  | (Ok obj, f') =>
      match as_db obj with
      | None => (Raise TypeError, f')
      | Some db =>
          if bool_decide (size orig_db = 0%nat) then (Ok db, f')
          else (Ok (map_fold (fun k v orig => <[k := v]> orig) orig_db db), f')
      end
  end.

Definition as_deps (obj : Pickled) : option (gmap Key DepsRecord) :=
  match obj with PickledDeps db => Some db | _ => None end.
Definition as_modtimes (obj : Pickled) : option (gmap string Z) :=
  match obj with PickledModtimes db => Some db | _ => None end.
Definition as_cmdlines (obj : Pickled) : option (gmap Key (list string)) :=
  match obj with PickledCmdlines db => Some db | _ => None end.

(** [obj == n] for an unpickled object and an integer. *)
Definition equals_int (obj : Pickled) (n : Z) : bool :=
  match obj with
  | PickledInt m => m =? n
  | _ => false
  end.

(** [load(filename)]: [files] maps the names of the files that can be
    opened to the objects pickled in them.  The result tells whether the
    call returned or raised, the globals afterwards, and what is left
    unread of the file. *)
Definition load (files : gmap string (list Pickled)) (filename : string)
    (g : Globals) : Result unit * Loading :=
  match files !! filename with
  | None => (Raise IOError, {| globals := g; unread := [] |})
  | Some f =>
      match cPickle_load f with
      | (Raise exn, f) => (Raise exn, {| globals := g; unread := f |})
      | (Ok version, f) =>
          if negb (equals_int version DEPS_FORMAT_VERSION)
          then (Raise IOError, {| globals := g; unread := f |})
          else
            match __loadDb as_deps f (deps_db g) with
            | (Raise exn, f) => (Raise exn, {| globals := g; unread := f |})
            | (Ok db, f) =>
                let g := {| deps_db := db; modtimes_db := modtimes_db g;
                            cmdlines_db := cmdlines_db g |} in
                match __loadDb as_modtimes f (modtimes_db g) with
                | (Raise exn, f) =>
                    (Raise exn, {| globals := g; unread := f |})
                | (Ok db, f) =>
                    let g := {| deps_db := deps_db g; modtimes_db := db;
                                cmdlines_db := cmdlines_db g |} in
                    match __loadDb as_cmdlines f (cmdlines_db g) with
                    | (Raise exn, f) =>
                        (Raise exn, {| globals := g; unread := f |})
                    | (Ok db, f) =>
                        (Ok tt,
                         {| globals := {| deps_db := deps_db g;
                                          modtimes_db := modtimes_db g;
                                          cmdlines_db := db |};
                            unread := f |})
                    end
                end
            end
      end
  end.

(** *** Recording and saving *)

(** [DepsRecord()] *)
Definition new_record : DepsRecord := {| deps := []; outputs := [] |}.

(** [if key not in deps_db: deps_db[key] = DepsRecord()] *)
Definition ensure_record (key : Key) (db : gmap Key DepsRecord)
  : gmap Key DepsRecord :=
  match db !! key with
  | Some _ => db
  | None => <[key := new_record]> db
  end.

(** [addDependency(bakefile, format, dependency_file)] *)
Definition addDependency (bakefile format dependency_file : string)
    (g : Globals) : Globals :=
  if bool_decide (bakefile = dependency_file) then g
  else
    let key := (bakefile, format) in
    {| deps_db :=
         alter (fun r => {| deps := deps r ++ [dependency_file];
                            outputs := outputs r |})
               key (ensure_record key (deps_db g));
       modtimes_db := modtimes_db g;
       cmdlines_db := cmdlines_db g |}.

(** [addOutput(bakefile, format, output_file, output_method)]; [now] is
    what [int(time.time())] returns. *)
Definition addOutput (now : Z) (bakefile format output_file output_method : string)
    (g : Globals) : Globals :=
  let key := (bakefile, format) in
  {| deps_db :=
       alter (fun r => {| deps := deps r;
                          outputs := outputs r ++ [(output_file, output_method)] |})
             key (ensure_record key (deps_db g));
     modtimes_db := <[output_file := now]> (modtimes_db g);
     cmdlines_db := cmdlines_db g |}.

(** [addCmdLine(bakefile, format, cmdline)] *)
Definition addCmdLine (bakefile format : string) (cmdline : list string)
    (g : Globals) : Globals :=
  {| deps_db := deps_db g;
     modtimes_db := modtimes_db g;
     cmdlines_db := <[(bakefile, format) := cmdline]> (cmdlines_db g) |}.

(** What the four [cPickle.dump] calls of [save] write. *)
Definition dumped (g : Globals) : list Pickled :=
  [PickledInt DEPS_FORMAT_VERSION; PickledDeps (deps_db g);
   PickledModtimes (modtimes_db g); PickledCmdlines (cmdlines_db g)].

(** [save(filename)]: [writable] tells whether [open(filename, 'wb')]
    succeeds; when it does not, the [IOError] leaves the files alone. *)
Definition save (writable : string -> bool)
    (files : gmap string (list Pickled)) (filename : string) (g : Globals)
  : Result unit * gmap string (list Pickled) :=
  if writable filename then (Ok tt, <[filename := dumped g]> files)
  else (Raise IOError, files).

(** The globals after merging what a file held into them: the entries of
    the file win. *)
Definition merged (file memory : Globals) : Globals :=
  {| deps_db := deps_db file ∪ deps_db memory;
     modtimes_db := modtimes_db file ∪ modtimes_db memory;
     cmdlines_db := cmdlines_db file ∪ cmdlines_db memory |}.

(** Whether a known key with the recorded command line and an input file of
    mtime [bakefile_time] is up to date: all outputs and dependencies are
    files, and the oldest effective output time is older neither than the
    input nor than any dependency. *)
Definition up_to_date (g : Globals) (fs : gmap string Stat)
    (info : DepsRecord) (bakefile_time : Z) : bool :=
  forallb (fun o => isfile fs o.1) (outputs info)
  && match oldest_effective_time g fs info with
     | None => false
     | Some oldest =>
         negb (oldest <? bakefile_time)
         && forallb (isfile fs) (deps info)
         && forallb (fun d => negb (older (Some oldest) (mtime fs d)))
                    (deps info)
     end.

(** The globals when the module has just been imported. *)
Definition initial_globals : Globals :=
  {| deps_db := ∅; modtimes_db := ∅; cmdlines_db := ∅ |}.

(** No bakefile is listed among its own dependencies. *)
Definition no_self_dependency (g : Globals) : Prop :=
  forall bakefile format info,
    deps_db g !! (bakefile, format) = Some info -> bakefile ∉ deps info.

(** *** Scenarios *)

(** A ledger that recorded the output [out.mk] of [proj.bkl] with modtime
    [T], and a disk on which [out.mk] has mtime [T_out] and [proj.bkl] has
    mtime [T_bkl]. *)
Definition recorded_ledger (format method : string) (cmdline : list string)
    (T : Z) : Globals :=
  {| deps_db := {[ ("proj.bkl", format) :=
                     {| deps := []; outputs := [("out.mk", method)] |} ]};
     modtimes_db := {[ "out.mk" := T ]};
     cmdlines_db := {[ ("proj.bkl", format) := cmdline ]} |}.

Definition disk (T_out T_bkl : Z) : gmap string Stat :=
  {[ "out.mk" := {| is_regular_file := true; st_mtime := T_out |};
     "proj.bkl" := {| is_regular_file := true; st_mtime := T_bkl |} ]}.

(** A ledger whose record for [proj.bkl] declares no output at all. *)
Definition ledger_without_outputs : Globals :=
  {| deps_db := {[ ("proj.bkl", "gnu") := {| deps := []; outputs := [] |} ]};
     modtimes_db := ∅;
     cmdlines_db := {[ ("proj.bkl", "gnu") := ["--foo"] ]} |}.

(** A ledger with one record, for [proj.bkl] and the format [gnu]. *)
Definition ledger_with (outs : list (string * string)) (ds : list string)
  : Globals :=
  {| deps_db := {[ ("proj.bkl", "gnu") := {| deps := ds; outputs := outs |} ]};
     modtimes_db := ∅;
     cmdlines_db := {[ ("proj.bkl", "gnu") := ["--foo"] ]} |}.

(** A ledger file of format version 3. *)
Definition old_ledger_file : list Pickled :=
  [PickledInt 3; PickledDeps ∅; PickledModtimes ∅; PickledCmdlines ∅].

End dependencies.

(** * Properties *)

(** ** The dependency ledger *)

Module dependencies_facts.
Import dependencies.
Local Open Scope Z_scope.

Lemma isfile_stat fs f :
  isfile fs f = true ->
  exists st, fs !! f = Some st /\ stat_mtime fs f = Ok (st_mtime st).
Proof.
  unfold isfile, stat_mtime. destruct (fs !! f) as [st|]; [|discriminate].
  intros _. by exists st.
Qed.

Lemma older_of_assoc a t m :
  older_of (older_of a (Some t)) m
  = older_of a (match m with
                | None => Some t
                | Some m' => Some (Z.min t m')
                end).
Proof.
  destruct a as [a|], m as [m|]; simpl; try reflexivity.
  by rewrite Z.min_assoc.
Qed.

(** The loop over the outputs stops with 1 at the first output that is not
    a file, and otherwise leaves the oldest effective time in
    [oldest_output]. *)
Lemma outputs_loop_all_files g fs outs acc :
  forallb (fun o => isfile fs o.1) outs = true ->
  outputs_loop g fs outs acc
  = Ok (Continue (older_of acc
          (minimum (omap (fun o => effective_time g fs o.1) outs)))).
Proof.
  revert acc. induction outs as [|[f method] outs IH]; intros acc Hall.
  - simpl. by destruct acc.
  - simpl in Hall. apply andb_prop in Hall as [Hf Hrest].
    destruct (isfile_stat _ _ Hf) as (st & Hst & Hmt).
    simpl. rewrite Hf, Hmt. simpl.
    rewrite (IH _ Hrest). unfold effective_time. rewrite Hst.
    f_equal. f_equal.
    set (m := minimum _).
    set (eff := match modtimes_db g !! f with
                | Some recorded =>
                    if recorded >? st_mtime st then recorded else st_mtime st
                | None => st_mtime st
                end).
    assert (Heff : match modtimes_db g !! f with
                   | Some recorded => Some (Z.max recorded (st_mtime st))
                   | None => Some (st_mtime st) end = Some eff).
    { subst eff. destruct (modtimes_db g !! f) as [r|]; [|done].
      f_equal. destruct (Z.gtb_spec r (st_mtime st)); lia. }
    rewrite Heff. simpl.
    assert (Hacc : match acc with
                   | Some oldest =>
                       if eff <? oldest then Some eff else Some oldest
                   | None => Some eff
                   end = older_of acc (Some eff)).
    { destruct acc as [a|]; simpl; [|done].
      destruct (Z.ltb_spec eff a); f_equal; lia. }
    rewrite Hacc. apply older_of_assoc.
Qed.

Lemma outputs_loop_missing g fs outs acc :
  forallb (fun o => isfile fs o.1) outs = false ->
  outputs_loop g fs outs acc = Ok (Return 1).
Proof.
  revert acc. induction outs as [|[f method] outs IH]; intros acc Hall.
  - discriminate.
  - simpl in Hall. simpl.
    destruct (isfile fs f) eqn:Hf; simpl in *; [|done].
    destruct (isfile_stat _ _ Hf) as (st & Hst & Hmt). rewrite Hmt. simpl.
    by apply IH.
Qed.

Lemma deps_loop_spec fs ds oldest :
  deps_loop fs ds oldest
  = if forallb (isfile fs) ds
       && forallb (fun d => negb (older (Some oldest) (mtime fs d))) ds
    then Ok (Continue tt) else Ok (Return 1).
Proof.
  induction ds as [|f ds IH]; [done|].
  simpl. destruct (isfile fs f) eqn:Hf; simpl; [|done].
  destruct (isfile_stat _ _ Hf) as (st & Hst & Hmt). rewrite Hmt. simpl.
  unfold mtime at 1. rewrite Hst. simpl.
  destruct (oldest <? st_mtime st); simpl.
  - by rewrite andb_false_r.
  - apply IH.
Qed.

(** C2 (as amended): [needsUpdate] takes as the effective time of each
    declared output the maximum of its recorded modtime and its on-disk mtime
    and keeps the oldest of them; it returns 0 (false) exactly when all six
    staleness checks pass, the record declares at least one output and the
    input file is on disk; and in scenario S5 (recorded modtime T, output on
    disk at T+10, input at T+5, same command line) it returns 0. *)
Theorem needsUpdate_up_to_date g fs bakefile format cmdline :
  (forall outs,
      outputs_loop g fs outs None
      = if forallb (fun o => isfile fs o.1) outs
        then Ok (Continue
                   (minimum (omap (fun o => effective_time g fs o.1) outs)))
        else Ok (Return 1))
  /\ (needsUpdate g fs bakefile format cmdline = Ok 0
      <-> six_checks_pass g fs bakefile format cmdline = true
          /\ (exists info, deps_db g !! (bakefile, format) = Some info
                            /\ outputs info <> [])
          /\ is_Some (fs !! bakefile))
  /\ (forall method T,
        needsUpdate (recorded_ledger format method cmdline T)
                    (disk (T + 10) (T + 5)) "proj.bkl" format cmdline = Ok 0).
Proof.
  split; [|split].
  - intros outs. destruct (forallb _ outs) eqn:Hall.
    + by rewrite outputs_loop_all_files.
    + by apply outputs_loop_missing.
  - unfold needsUpdate, six_checks_pass.
    destruct (deps_db g !! (bakefile, format)) as [info|] eqn:Hinfo;
      [|split; [discriminate | intros [? _]; discriminate]].
    destruct (cmdlines_db g !! (bakefile, format)) as [rc|] eqn:Hrc;
      [|split; [discriminate | intros [? _]; discriminate]].
    destruct (decide (cmdline = rc)) as [->|Hne].
    2:{ rewrite bool_decide_eq_true_2 by done.
        rewrite (bool_decide_eq_false_2 (rc = cmdline)) by congruence.
        split; [discriminate | intros [? _]; discriminate]. }
    rewrite bool_decide_eq_false_2 by (intros Hc; by apply Hc).
    rewrite bool_decide_eq_true_2 by done. simpl.
    unfold stat_mtime at 1, mtime at 1.
    destruct (fs !! bakefile) as [bst|] eqn:Hb; simpl.
    2:{ split; [discriminate|]. intros (_ & _ & [? ?]). discriminate. }
    unfold oldest_effective_time.
    destruct (forallb (fun o => isfile fs o.1) (outputs info)) eqn:Hall.
    2:{ rewrite outputs_loop_missing by done. simpl.
        split; [discriminate | intros [? _]; discriminate]. }
    rewrite outputs_loop_all_files by done. simpl.
    destruct (outputs info) as [|o outs] eqn:Houts.
    { simpl. split; [discriminate|].
      intros (_ & (info' & Hi & Hn) & _). congruence. }
    rewrite <- Houts in *.
    destruct (minimum _) as [oldest|] eqn:Hmin; simpl.
    2:{ exfalso. rewrite Houts in Hall, Hmin. simpl in Hall, Hmin.
        apply andb_prop in Hall as [Hf _].
        destruct (isfile_stat _ _ Hf) as (st & Hst & _).
        unfold effective_time in Hmin at 1. rewrite Hst in Hmin.
        destruct (modtimes_db g !! o.1); simpl in Hmin;
          destruct (minimum _); discriminate. }
    destruct (oldest <? st_mtime bst) eqn:Holder; simpl.
    { rewrite andb_false_r. simpl.
      split; [discriminate | intros [? _]; discriminate]. }
    rewrite deps_loop_spec.
    destruct (forallb (isfile fs) (deps info)); simpl.
    2:{ split; [discriminate | intros [? _]; discriminate]. }
    destruct (forallb _ (deps info)); simpl.
    + split; [|done]. intros _. split; [done|]. split; [|by eexists].
      exists info. split; [done|]. rewrite Houts. discriminate.
    + split; [discriminate | intros [? _]; discriminate].
  - intros method T.
    assert (Hout : disk (T + 10) (T + 5) !! "out.mk"
                   = Some {| is_regular_file := true; st_mtime := T + 10 |})
      by apply lookup_insert_eq.
    assert (Hbkl : disk (T + 10) (T + 5) !! "proj.bkl"
                   = Some {| is_regular_file := true; st_mtime := T + 5 |}).
    { unfold disk. rewrite lookup_insert_ne by done.
      apply lookup_singleton_eq. }
    unfold needsUpdate, recorded_ledger.
    cbn [deps_db cmdlines_db modtimes_db].
    rewrite !lookup_singleton_eq.
    rewrite bool_decide_eq_false_2 by (intros Hc; by apply Hc).
    unfold stat_mtime at 1. rewrite Hbkl.
    cbn [mbind Result_bind outputs deps outputs_loop modtimes_db st_mtime].
    unfold isfile, stat_mtime. rewrite Hout.
    cbn [mbind Result_bind negb is_regular_file st_mtime].
    rewrite lookup_singleton_eq.
    replace (T >? T + 10) with false
      by (symmetry; rewrite Z.gtb_ltb; apply Z.ltb_ge; lia).
    replace (T + 10 <? T + 5) with false by (symmetry; apply Z.ltb_ge; lia).
    reflexivity.
Qed.

(** C2, as stated, fails: with a record that declares no output, all six
    staleness checks pass and yet [needsUpdate] returns 1 (true). *)
Lemma needsUpdate_no_output_counterexample :
  six_checks_pass ledger_without_outputs (disk 10 5) "proj.bkl" "gnu" ["--foo"]
  = true
  /\ needsUpdate ledger_without_outputs (disk 10 5) "proj.bkl" "gnu" ["--foo"]
     = Ok 1.
Proof. split; vm_compute; reflexivity. Qed.

(** C9: when the record of a key known to both maps declares no output,
    [needsUpdate] returns 1 (true) as soon as the input file is on disk, also
    when the command line is the recorded one. *)
Theorem needsUpdate_empty_outputs g fs bakefile format cmdline info recorded :
  deps_db g !! (bakefile, format) = Some info ->
  cmdlines_db g !! (bakefile, format) = Some recorded ->
  outputs info = [] ->
  is_Some (fs !! bakefile) ->
  needsUpdate g fs bakefile format cmdline = Ok 1.
Proof.
  intros Hinfo Hcmd Houts [bst Hb]. unfold needsUpdate.
  rewrite Hinfo, Hcmd. case_bool_decide; [done|].
  unfold stat_mtime. rewrite Hb, Houts. reflexivity.
Qed.

Lemma needsUpdate_empty_outputs_witness :
  needsUpdate ledger_without_outputs (disk 10 5) "proj.bkl" "gnu" ["--foo"]
  = Ok 1.
Proof.
  apply (needsUpdate_empty_outputs ledger_without_outputs (disk 10 5)
           "proj.bkl" "gnu" ["--foo"] {| deps := []; outputs := [] |}
           ["--foo"]).
  - vm_compute; reflexivity.
  - vm_compute; reflexivity.
  - reflexivity.
  - exists {| is_regular_file := true; st_mtime := 5 |}.
    vm_compute; reflexivity.
Defined.

(** S6 of the specification: another command line means regeneration. *)
Example needsUpdate_other_cmdline :
  needsUpdate (recorded_ledger "gnu" "replace" ["--foo"] 100) (disk 110 105)
              "proj.bkl" "gnu" ["--bar"]
  = Ok 1.
Proof. vm_compute. reflexivity. Qed.

Example needsUpdate_missing_input :
  needsUpdate (recorded_ledger "gnu" "replace" ["--foo"] 100) ∅
              "proj.bkl" "gnu" ["--foo"]
  = Raise OSError.
Proof. vm_compute. reflexivity. Qed.

Lemma equals_int_false version n :
  version <> PickledInt n -> equals_int version n = false.
Proof.
  destruct version as [m| | | |]; simpl; try done.
  intros Hne. apply Z.eqb_neq. congruence.
Qed.

(** C7: loading a ledger file whose leading object is not the current format
    version (4) raises [IOError] with only that object read, the three maps
    still unread, and with the globals [deps_db], [modtimes_db] and
    [cmdlines_db] as they were. *)
Theorem load_version_mismatch files filename g version body :
  files !! filename = Some (version :: body) ->
  version <> PickledInt DEPS_FORMAT_VERSION ->
  load files filename g = (Raise IOError, {| globals := g; unread := body |}).
Proof.
  intros Hfile Hversion. unfold load. rewrite Hfile. simpl.
  by rewrite (equals_int_false _ _ Hversion).
Qed.

Lemma load_version_mismatch_witness :
  load {[ ".bakefile_gen.state" := old_ledger_file ]} ".bakefile_gen.state"
       ledger_without_outputs
  = (Raise IOError,
     {| globals := ledger_without_outputs;
        unread := [PickledDeps ∅; PickledModtimes ∅; PickledCmdlines ∅] |}).
Proof.
  apply (load_version_mismatch _ _ _ (PickledInt 3)).
  - apply lookup_singleton_eq.
  - discriminate.
Defined.

End dependencies_facts.

(** ** The builder *)

Module builder_facts.
Import model builder.

Lemma for_children_keeps_context {N : Type} (_handle_node : N -> M unit)
    (children : list N) (self : Builder) :
  (forall n s, context (_handle_node n s).2 = context s) ->
  context (for_children _handle_node children self).2 = context self.
Proof.
  intros Hkeep. revert self.
  induction children as [|n rest IH]; intros self; [done|].
  simpl. specialize (Hkeep n self).
  destruct (_handle_node n self) as [[[]|exn] self1]; simpl in *.
  - by rewrite IH.
  - done.
Qed.

(** C10: [handle_children] runs the children with the builder's context set
    to the supplied scope and restores the previous context on exit, whether
    the children were all handled or one of them raised: the context after
    the call is the context before it, whatever the handler does; and the
    supplied scope is still the context when the last child is done, as long
    as no handler leaves another context behind. *)
Theorem handle_children_restores_context {N : Type} (_handle_node : N -> M unit)
    (children : list N) (ctxt : Context) (self : Builder) :
  context (handle_children _handle_node children ctxt self).2 = context self
  /\ exists outcome self',
      for_children _handle_node children (set_context ctxt self)
      = (outcome, self')
      /\ handle_children _handle_node children ctxt self
         = (outcome, set_context (context self) self')
      /\ ((forall n s, context (_handle_node n s).2 = context s) ->
          context self' = ctxt).
Proof.
  unfold handle_children.
  destruct (for_children _ children (set_context ctxt self))
    as [outcome self'] eqn:Hrun.
  split; [reflexivity|]. exists outcome, self'.
  split; [done|]. split; [done|]. intros Hkeep.
  change self' with (outcome, self').2. rewrite <- Hrun.
  by rewrite for_children_keeps_context.
Qed.

(** A handler that leaves another context behind and raises: the context
    is restored all the same. *)
Lemma handle_children_restores_context_after_error :
  handle_children leaving_handler [1%nat; 2%nat] (Some [0]) fresh_builder
  = (Raise (Error "failed"), fresh_builder).
Proof. reflexivity. Qed.

Lemma resolve_variable_local ps scope name :
  resolve_variable ps scope name = None -> get_variable ps scope name = None.
Proof. destruct scope; simpl; by destruct (get_variable ps _ name). Qed.

Lemma get_variable_add ps scope name var :
  get_variable (add_variable scope name var ps) scope name = Some var.
Proof.
  unfold get_variable, add_variable. rewrite lookup_insert_eq. simpl.
  apply lookup_insert_eq.
Qed.

Lemma get_variable_update ps scope name f :
  get_variable (update_variable scope name f ps) scope name
  = f <$> get_variable ps scope name.
Proof.
  unfold update_variable.
  destruct (get_variable ps scope name) as [var|] eqn:Hvar; simpl.
  - apply get_variable_add.
  - done.
Qed.

(** C6: an append to a name that is not defined locally, does not resolve in
    any enclosing scope and has no registered property raises; nothing is
    added to any scope; and the exception is the [ParserError] for an unknown
    variable whenever the name is not empty and the value expression can be
    built. *)
Theorem append_to_unknown_variable get_prop varname node_value self scope :
  context self = Some scope ->
  get_variable (parts self) scope varname = None ->
  resolve_variable (parts self) scope varname = None ->
  get_prop scope varname = None ->
  exists exn self',
    on_assignment get_prop true varname node_value self = (Raise exn, self')
    /\ parts self' = parts self
    /\ (varname <> EmptyString ->
        is_Ok (_build_expression (Some scope) node_value) ->
        exn = ParserError (unknown_variable varname)).
Proof.
  intros Hctx Hlocal Hresolve Hprop.
  unfold on_assignment, mbind, M_bind, gets, lift. rewrite Hctx.
  destruct (_build_expression (Some scope) node_value) as [value|exn] eqn:Hv.
  2:{ exists exn, self. split; [done|]. split; [done|].
      intros _ [? ?]. discriminate. }
  destruct varname as [|c rest].
  { exists IndexError, self. split; [done|]. split; [done|]. by intros []. }
  unfold modify, mret, M_ret, raise.
  destruct (Ascii.eqb c "_"); cbn [parts warning];
    rewrite Hlocal; cbn beta iota; cbn [parts warning];
    rewrite Hresolve, Hprop; cbn beta iota;
    eexists _, _; (split; [reflexivity|]); split; done.
Qed.

Lemma append_to_unknown_variable_witness :
  exists exn self',
    on_assignment no_properties true "x" (LiteralNode "1") fresh_builder
    = (Raise exn, self')
    /\ parts self' = parts fresh_builder
    /\ ("x" <> EmptyString ->
        is_Ok (_build_expression (Some [0]) (LiteralNode "1")) ->
        exn = ParserError (unknown_variable "x")).
Proof.
  apply (append_to_unknown_variable no_properties "x" (LiteralNode "1")
           fresh_builder [0]); reflexivity.
Defined.

Lemma resolve_variable_found ps scope name var :
  get_variable ps scope name = Some var ->
  resolve_variable ps scope name = Some var.
Proof. intros Hvar. destruct scope; simpl; by rewrite Hvar. Qed.

Ltac run_assignment :=
  unfold on_assignment, mbind, M_bind, gets, lift, modify, mret, M_ret, raise.

Lemma conditional_set get_prop varname node_value self scope c value :
  context self = Some scope ->
  active_if_cond self = Some c ->
  varname <> EmptyString ->
  _build_expression (Some scope) node_value = Ok value ->
  exists self',
    on_assignment get_prop false varname node_value self = (Ok tt, self')
    /\ model.value <$> get_variable (parts self') scope varname
       = Some (IfExpr c value
                 match conditional_previous_value get_prop (parts self)
                         scope varname with
                 | Some pv => model.value pv
                 | None => NullExpr
                 end).
Proof.
  intros Hctx Hactive Hname Hvalue. run_assignment.
  rewrite Hctx, Hvalue, Hactive. destruct varname as [|ch rest]; [done|].
  unfold conditional_previous_value.
  destruct (Ascii.eqb ch "_"); cbn [parts warning];
    destruct (get_variable (parts self) scope _) as [var|] eqn:Hvar;
    cbn beta iota; cbn [parts warning].
  all: try (rewrite (resolve_variable_found _ _ _ _ Hvar);
            eexists; split; [reflexivity|];
            cbn [parts set_parts warning];
            by rewrite get_variable_update, Hvar).
  all: destruct (resolve_variable (parts self) scope _) as [pv|] eqn:Hres;
    destruct (get_prop scope _) as [prop|] eqn:Hprop;
    cbn beta iota; cbn [parts set_parts warning orb];
    eexists; (split; [reflexivity|]);
    cbn [parts set_parts warning];
    by rewrite get_variable_update, ?get_variable_add.
Qed.

Lemma appended_value_list previous items :
  appended_value previous (ListExpr items)
  = ListExpr (previous_items previous ++ items).
Proof. by destruct previous. Qed.

Ltac finish_append Hty :=
  cbn beta iota; cbn [parts set_parts warning orb type from_property];
  first
    [ exfalso; by eapply Hty
    | eexists; (split; [reflexivity|]);
      cbn [parts set_parts warning];
      rewrite !get_variable_update, ?get_variable_add;
      try match goal with
          | H : get_variable _ _ _ = Some _ |- _ => rewrite H
          end;
      cbn [fmap option_fmap option_map set_value set_type model.value
             from_property conditional_append_value];
      by rewrite appended_value_list ].

Lemma conditional_append get_prop varname node_value self scope c items pv :
  context self = Some scope ->
  active_if_cond self = Some c ->
  varname <> EmptyString ->
  _build_expression (Some scope) node_value = Ok (ListExpr items) ->
  conditional_previous_value get_prop (parts self) scope varname = Some pv ->
  (forall n, assigned_type get_prop (parts self) scope varname
             <> Some (OtherType n)) ->
  exists self',
    on_assignment get_prop true varname node_value self = (Ok tt, self')
    /\ model.value <$> get_variable (parts self') scope varname
       = Some (ListExpr (previous_items (model.value pv)
                           ++ ((fun i => IfExpr c i NullExpr) <$> items))).
Proof.
  intros Hctx Hactive Hname Hvalue Hprev Htype. run_assignment.
  rewrite Hctx, Hvalue, Hactive. destruct varname as [|ch rest]; [done|].
  unfold conditional_previous_value in Hprev. unfold assigned_type in Htype.
  destruct (Ascii.eqb ch "_"); cbn [parts warning];
    destruct (get_variable (parts self) scope _) as [var|] eqn:Hvar;
    cbn beta iota; cbn [parts warning].
  all: try (rewrite (resolve_variable_found _ _ _ _ Hvar) in Hprev;
            injection Hprev as ->;
            by destruct (type pv) eqn:Hty; finish_append Htype).
  all: destruct (resolve_variable (parts self) scope _) as [pv'|] eqn:Hres;
    destruct (get_prop scope _) as [prop|] eqn:Hprop;
    cbn [fmap option_fmap option_map] in Hprev, Htype;
    try discriminate; injection Hprev as <-.
  all: cbn beta iota; cbn [parts set_parts warning orb type from_property].
  all: try (destruct (prop_type prop) eqn:Hty; finish_append Htype).
  all: destruct (type pv') eqn:Hty; finish_append Htype.
Qed.

Lemma conditional_append_scenario cond_ast c :
  _build_expression (Some [0]) cond_ast = Ok c ->
  let run := handle_children (_handle_node no_properties)
               (conditional_append_program cond_ast) (Some [0]) fresh_builder in
  run.1 = Ok tt
  /\ get_variable (parts run.2) [0] "a"
     = Some {| model.value :=
                 ListExpr [LiteralExpr "1"; LiteralExpr "2";
                           IfExpr c (LiteralExpr "3") NullExpr];
               type := ListType AnyType |}.
Proof.
  intros Hc run. subst run.
  vm_compute in Hc. vm_compute. rewrite Hc. vm_compute. done.
Qed.

Lemma conditional_set_scenario cond_ast c :
  _build_expression (Some [0]) cond_ast = Ok c ->
  let run := handle_children (_handle_node no_properties)
               (conditional_set_program cond_ast) (Some [0]) fresh_builder in
  run.1 = Ok tt
  /\ get_variable (parts run.2) [0] "a"
     = Some {| model.value :=
                 IfExpr c (ListExpr [LiteralExpr "3"])
                        (ListExpr [LiteralExpr "1"; LiteralExpr "2"]);
               type := AnyType |}.
Proof.
  intros Hc run. subst run.
  vm_compute in Hc. vm_compute. rewrite Hc. vm_compute. done.
Qed.

(** Methods that leave [self.context] as they found it. *)

Lemma keeps_context_ret {A : Type} (a : A) : keeps_context (mret a).
Proof. by intros self. Qed.

Lemma keeps_context_raise {A : Type} exn : keeps_context (@raise A exn).
Proof. by intros self. Qed.

Lemma keeps_context_lift {A : Type} (r : Result A) : keeps_context (lift r).
Proof. by intros self. Qed.

Lemma keeps_context_gets {A : Type} (f : Builder -> A) :
  keeps_context (gets f).
Proof. by intros self. Qed.

Lemma keeps_context_modify (f : Builder -> Builder) :
  (forall self, context (f self) = context self) ->
  keeps_context (modify f).
Proof. intros Hf self. apply Hf. Qed.

Lemma keeps_context_bind {A B : Type} (m : M A) (f : A -> M B) :
  keeps_context m -> (forall a, keeps_context (f a)) ->
  keeps_context (m ≫= f).
Proof.
  intros Hm Hf self. unfold mbind, M_bind. specialize (Hm self).
  destruct (m self) as [[a|exn] self1]; simpl in *.
  - by rewrite Hf.
  - done.
Qed.

Lemma keeps_context_push_cond cond : keeps_context (push_cond cond).
Proof. by intros self. Qed.

Lemma keeps_context_pop_cond : keeps_context pop_cond.
Proof. intros self. unfold pop_cond. by destruct (if_cond_stack self). Qed.

Lemma keeps_context_handle_children {N : Type} (h : N -> M unit) children ctxt :
  keeps_context (handle_children h children ctxt).
Proof.
  intros self. unfold handle_children.
  by destruct (for_children h children (set_context ctxt self)).
Qed.

Create HintDb keeps.
#[local] Hint Resolve keeps_context_ret keeps_context_raise keeps_context_lift
  keeps_context_gets keeps_context_push_cond keeps_context_pop_cond
  keeps_context_handle_children : keeps.

Ltac keeps_step :=
  match goal with
  | |- keeps_context (_ ≫= _) => apply keeps_context_bind; [|intros ?]
  | |- keeps_context (modify _) => apply keeps_context_modify; by intros ?
  | |- keeps_context (match ?x with _ => _ end) => destruct x
  | |- keeps_context _ => solve [auto with keeps]
  end.

Lemma on_assignment_keeps_context get_prop append varname node_value :
  keeps_context (on_assignment get_prop append varname node_value).
Proof. unfold on_assignment. repeat keeps_step. Qed.

Lemma _handle_node_keeps_context get_prop node :
  keeps_context (_handle_node get_prop node).
Proof.
  destruct node; simpl; repeat keeps_step;
    apply on_assignment_keeps_context.
Qed.

(** C3: while a condition [c] is active, an append of a list value wraps
    each item on its own as [IfExpr c item NullExpr] and concatenates the
    wrapped items onto the previous value, and a plain assignment stores the
    single [IfExpr c value previous], with [NullExpr] for a previous value
    that does not exist.  Hence [a = [1, 2]; if (c) a += [3]] leaves
    [[1, 2, IfExpr c 3 NullExpr]] in [a], and [a = [1, 2]; if (c) a = [3]]
    leaves [IfExpr c [3] [1, 2]]. *)
Theorem conditional_assignment :
  (forall get_prop varname node_value self scope c items pv,
      context self = Some scope ->
      active_if_cond self = Some c ->
      varname <> EmptyString ->
      _build_expression (Some scope) node_value = Ok (ListExpr items) ->
      conditional_previous_value get_prop (parts self) scope varname = Some pv ->
      (forall n, assigned_type get_prop (parts self) scope varname
                 <> Some (OtherType n)) ->
      exists self',
        on_assignment get_prop true varname node_value self = (Ok tt, self')
        /\ model.value <$> get_variable (parts self') scope varname
           = Some (ListExpr (previous_items (model.value pv)
                               ++ ((fun i => IfExpr c i NullExpr) <$> items))))
  /\ (forall get_prop varname node_value self scope c value,
        context self = Some scope ->
        active_if_cond self = Some c ->
        varname <> EmptyString ->
        _build_expression (Some scope) node_value = Ok value ->
        exists self',
          on_assignment get_prop false varname node_value self = (Ok tt, self')
          /\ model.value <$> get_variable (parts self') scope varname
             = Some (IfExpr c value
                       match conditional_previous_value get_prop (parts self)
                               scope varname with
                       | Some pv => model.value pv
                       | None => NullExpr
                       end))
  /\ (forall cond_ast c,
        _build_expression (Some [0]) cond_ast = Ok c ->
        (handle_children (_handle_node no_properties)
           (conditional_append_program cond_ast) (Some [0]) fresh_builder).1
        = Ok tt
        /\ get_variable
             (parts (handle_children (_handle_node no_properties)
                       (conditional_append_program cond_ast) (Some [0])
                       fresh_builder).2) [0] "a"
           = Some {| model.value :=
                       ListExpr [LiteralExpr "1"; LiteralExpr "2";
                                 IfExpr c (LiteralExpr "3") NullExpr];
                     type := ListType AnyType |})
  /\ (forall cond_ast c,
        _build_expression (Some [0]) cond_ast = Ok c ->
        (handle_children (_handle_node no_properties)
           (conditional_set_program cond_ast) (Some [0]) fresh_builder).1
        = Ok tt
        /\ get_variable
             (parts (handle_children (_handle_node no_properties)
                       (conditional_set_program cond_ast) (Some [0])
                       fresh_builder).2) [0] "a"
           = Some {| model.value :=
                       IfExpr c (ListExpr [LiteralExpr "3"])
                              (ListExpr [LiteralExpr "1"; LiteralExpr "2"]);
                     type := AnyType |}).
Proof.
  split; [|split; [|split]].
  - intros. by eapply conditional_append.
  - intros. by eapply conditional_set.
  - intros cond_ast c Hc. exact (conditional_append_scenario _ _ Hc).
  - intros cond_ast c Hc. exact (conditional_set_scenario _ _ Hc).
Qed.

Lemma conditional_assignment_witness :
  (exists self',
      on_assignment no_properties true "a" three builder_in_if = (Ok tt, self')
      /\ model.value <$> get_variable (parts self') [0] "a"
         = Some (ListExpr
                   (previous_items (ListExpr [LiteralExpr "1"; LiteralExpr "2"])
                    ++ ((fun i => IfExpr (ReferenceExpr "c" (Some [0])) i NullExpr)
                          <$> [LiteralExpr "3"]))))
  /\ (handle_children (_handle_node no_properties)
        (conditional_append_program (VarReferenceNode "c")) (Some [0])
        fresh_builder).1
     = Ok tt
  /\ get_variable
       (parts (handle_children (_handle_node no_properties)
                 (conditional_append_program (VarReferenceNode "c")) (Some [0])
                 fresh_builder).2) [0] "a"
     = Some {| model.value :=
                 ListExpr [LiteralExpr "1"; LiteralExpr "2";
                           IfExpr (ReferenceExpr "c" (Some [0]))
                                  (LiteralExpr "3") NullExpr];
               type := ListType AnyType |}.
Proof.
  split.
  - apply (proj1 conditional_assignment no_properties "a" three builder_in_if
             [0] (ReferenceExpr "c" (Some [0])) [LiteralExpr "3"]
             {| model.value := ListExpr [LiteralExpr "1"; LiteralExpr "2"];
                type := AnyType |}).
    + reflexivity.
    + reflexivity.
    + discriminate.
    + reflexivity.
    + reflexivity.
    + intros n. vm_compute. discriminate.
  - apply (proj1 (proj2 (proj2 conditional_assignment))
             (VarReferenceNode "c") (ReferenceExpr "c" (Some [0]))).
    reflexivity.
Defined.

(** S1 and property 9 of the specification: [x = s; x += t] makes [x] a list
    [[s, t]]. *)
Example append_promotes_to_list :
  get_variable
    (parts (handle_children (_handle_node no_properties)
              [AssignmentNode "x" (LiteralNode "s");
               AppendNode "x" (LiteralNode "t")] (Some [0]) fresh_builder).2)
    [0] "x"
  = Some {| model.value := ListExpr [LiteralExpr "s"; LiteralExpr "t"];
            type := ListType AnyType |}.
Proof. vm_compute. reflexivity. Qed.

End builder_facts.

(** ** Expressions *)

Module expr_facts.
Import expr.

Lemma split_loop_app f items1 items2 out :
  split_loop f (items1 ++ items2) out
  = split_loop f items1 out ≫= split_loop f items2.
Proof.
  revert out. induction items1 as [|i items1 IH]; intros out; [done|].
  simpl. destruct (f i) as [i_out|]; [|done]. simpl.
  destruct (splice out i_out) as [out'|]; [|done]. simpl. apply IH.
Qed.

Lemma splice_snoc out_init out_last i_first i_rest :
  splice (out_init ++ [out_last]) (i_first :: i_rest)
  = Ok (out_init ++ [ConcatExpr [out_last; i_first]] ++ i_rest).
Proof.
  unfold splice. rewrite last_snoc, length_app. simpl.
  replace (length out_init + 1 - 1)%nat with (length out_init) by lia.
  by rewrite take_app_length.
Qed.

(** C5: splitting a [ConcatExpr] splits each item and splices the results at
    the item boundaries: the result for one item is that of the item; adding
    an item merges the last segment so far with the first segment of the new
    item into one [ConcatExpr] and appends the remaining segments; and
    [split(Concat["foo/bar", "x/y"], "/")] is
    [["foo", Concat["bar", "x"], "y"]]. *)
Theorem split_concat get_variable_value :
  (forall depth c a,
      split get_variable_value (S depth) (ConcatExpr [a]) (String c EmptyString)
      = split get_variable_value depth a (String c EmptyString))
  /\ (forall depth c items b segments last_segment first_segment segments',
        split get_variable_value (S depth) (ConcatExpr items)
              (String c EmptyString)
        = Ok (segments ++ [last_segment]) ->
        split get_variable_value depth b (String c EmptyString)
        = Ok (first_segment :: segments') ->
        split get_variable_value (S depth) (ConcatExpr (items ++ [b]))
              (String c EmptyString)
        = Ok (segments ++ [ConcatExpr [last_segment; first_segment]]
                ++ segments'))
  /\ (forall depth,
        split get_variable_value (S (S depth))
              (ConcatExpr [LiteralExpr "foo/bar"; LiteralExpr "x/y"]) "/"
        = Ok [LiteralExpr "foo";
              ConcatExpr [LiteralExpr "bar"; LiteralExpr "x"];
              LiteralExpr "y"]).
Proof.
  split; [|split].
  - intros depth c a. simpl.
    destruct (split _ depth a _) as [i_out|]; [|done]. by destruct i_out.
  - intros depth c items b segments x y segments' Hitems Hb.
    simpl in *. rewrite split_loop_app, Hitems. simpl. rewrite Hb. simpl.
    by rewrite splice_snoc.
  - intros depth. reflexivity.
Qed.

Lemma split_concat_witness :
  split model.sample_lookup 2
        (ConcatExpr ([LiteralExpr "foo/bar"] ++ [LiteralExpr "x/y"])) "/"
  = Ok ([LiteralExpr "foo"]
          ++ [ConcatExpr [LiteralExpr "bar"; LiteralExpr "x"]]
          ++ [LiteralExpr "y"]).
Proof.
  apply (proj1 (proj2 (split_concat model.sample_lookup))
           1%nat "/"%char [LiteralExpr "foo/bar"] (LiteralExpr "x/y")
           [LiteralExpr "foo"] (LiteralExpr "bar") (LiteralExpr "x")
           [LiteralExpr "y"]); reflexivity.
Defined.

(** [simplify] of a reference is the referenced value, whatever it is: the
    test that follows the lookup is made on the reference itself. *)
Lemma simplify_reference get_variable_value var context :
  simplify get_variable_value (ReferenceExpr var context)
  = get_variable_value context var.
Proof.
  simpl. unfold get_value. by destruct (get_variable_value context var).
Qed.

Example simplify_fuses_literals :
  simplify model.sample_lookup
    (ConcatExpr [LiteralExpr "a"; LiteralExpr "b"; NullExpr; LiteralExpr "c"])
  = Ok (ConcatExpr [LiteralExpr "ab"; NullExpr; LiteralExpr "c"]).
Proof. vm_compute. reflexivity. Qed.

Example str_split_keeps_empty_segments :
  str_split "/" "/usr//lib/" = [""; "usr"; ""; "lib"; ""].
Proof. reflexivity. Qed.

Example split_follows_references :
  split model.sample_lookup 5
    (ConcatExpr [LiteralExpr "src/"; ReferenceExpr "x" (Some [0])]) "/"
  = Ok [LiteralExpr "src"; ConcatExpr [LiteralExpr ""; LiteralExpr "a"]].
Proof. vm_compute. reflexivity. Qed.

Example product_order :
  product [[1; 2]; [3; 4]]%nat = [[1; 3]; [1; 4]; [2; 3]; [2; 4]]%nat.
Proof. reflexivity. Qed.

(** C1 (the code at the failing input): [srcs] holds a list, and [simplify]
    of the reference to [srcs] is that list, not the reference. *)
Theorem simplify_reference_to_list :
  simplify model.sample_lookup (ReferenceExpr "srcs" (Some [0]))
  = Ok (ListExpr [LiteralExpr "p.c"; LiteralExpr "q.c"]).
Proof. vm_compute. reflexivity. Qed.

(** C4 (the code at the failing input): for the reference to [y], whose value
    is the literal [a], [all_possible_values] yields one generator object,
    which is no expression, whereas for the literal [a] itself it yields
    that literal. *)
Theorem all_possible_values_of_reference :
  all_possible_values model.sample_lookup (ReferenceExpr "y" (Some [0]))
  = Ok [ObjGenerator (LiteralExpr "a")]
  /\ as_Expr (ObjGenerator (LiteralExpr "a")) = None
  /\ all_possible_values model.sample_lookup (LiteralExpr "a")
     = Ok [ObjLiteralExpr "a"].
Proof.
  split; [|split].
  - vm_compute. reflexivity.
  - reflexivity.
  - reflexivity.
Qed.

(** Induction over expressions, with the hypothesis for every item of a
    list, a concatenation or a path. *)
Lemma Expr_items_ind (P : Expr -> Prop) :
  (forall items, Forall P items -> P (ListExpr items)) ->
  (forall items, Forall P items -> P (ConcatExpr items)) ->
  (forall components anchor,
      Forall P components -> P (PathExpr components anchor)) ->
  (forall e, (forall items, e <> ListExpr items) ->
             (forall items, e <> ConcatExpr items) ->
             (forall components anchor, e <> PathExpr components anchor) ->
             P e) ->
  forall e, P e.
Proof.
  intros HList HConcat HPath Hother.
  fix IH 1. intros e.
  assert (Hall : forall items, Forall P items).
  { induction items as [|i items IHitems]; constructor; [apply IH | done]. }
  destruct e; first [ by apply HList | by apply HConcat | by apply HPath
                    | by apply Hother ].
Qed.

Section Simplify.
Variable get_variable_value : Context -> string -> Result Expr.

Abbreviation simplify := (simplify get_variable_value).
Abbreviation references_settled := (references_settled get_variable_value).

Lemma merge_step_snoc out x i :
  merge_step (out ++ [x]) i
  = match i, x with
    | LiteralExpr v, LiteralExpr u => out ++ [LiteralExpr (u +:+ v)]
    | _, _ => out ++ [x; i]
    end.
Proof.
  unfold merge_step. rewrite last_snoc.
  destruct i; try by rewrite <- app_assoc.
  destruct x; try by rewrite <- app_assoc.
  rewrite length_app. simpl.
  replace (length out + 1 - 1)%nat with (length out + 0)%nat by lia.
  by rewrite insert_app_r.
Qed.

Lemma no_adjacent_literals_snoc out x i :
  no_adjacent_literals (out ++ [x; i])
  = no_adjacent_literals (out ++ [x])
    && negb (isinstance_LiteralExpr x && isinstance_LiteralExpr i).
Proof.
  induction out as [|a out IH].
  - simpl. by rewrite !andb_true_r.
  - destruct out as [|b out].
    + simpl. by rewrite !andb_true_r.
    + change (no_adjacent_literals ((a :: b :: out) ++ [x; i]))
        with (negb (isinstance_LiteralExpr a && isinstance_LiteralExpr b)
              && no_adjacent_literals ((b :: out) ++ [x; i])).
      change (no_adjacent_literals ((a :: b :: out) ++ [x]))
        with (negb (isinstance_LiteralExpr a && isinstance_LiteralExpr b)
              && no_adjacent_literals ((b :: out) ++ [x])).
      rewrite IH. by rewrite andb_assoc.
Qed.

Lemma no_adjacent_literals_last out x y :
  (isinstance_LiteralExpr y = true -> isinstance_LiteralExpr x = true) ->
  no_adjacent_literals (out ++ [x]) = true ->
  no_adjacent_literals (out ++ [y]) = true.
Proof.
  intros Hxy. destruct out as [|b out _] using rev_ind; [done|].
  rewrite <- !app_assoc. simpl. rewrite !no_adjacent_literals_snoc.
  intros [Hout Hbx]%andb_prop. rewrite Hout. simpl.
  destruct (isinstance_LiteralExpr y); [|by rewrite andb_false_r].
  by rewrite Hxy in Hbx.
Qed.

Lemma no_adjacent_literals_app_inv out x i l :
  no_adjacent_literals (out ++ x :: i :: l) = true ->
  isinstance_LiteralExpr x && isinstance_LiteralExpr i = false
  /\ no_adjacent_literals ((out ++ [x]) ++ i :: l) = true.
Proof.
  rewrite <- app_assoc. simpl. intros H. split; [|done].
  induction out as [|a out IH].
  - simpl in H. apply andb_prop in H as [H _]. by apply negb_true_iff.
  - apply IH. destruct out; simpl in H; by apply andb_prop in H as [_ H].
Qed.

(** The merging loop leaves a list without neighbouring literals ... *)
Lemma merge_no_adjacent_literals rest out x :
  no_adjacent_literals (out ++ [x]) = true ->
  exists out' x',
    fold_left merge_step rest (out ++ [x]) = out' ++ [x']
    /\ no_adjacent_literals (out' ++ [x']) = true.
Proof.
  revert out x. induction rest as [|i rest IH]; intros out x Hout.
  - by exists out, x.
  - simpl. rewrite merge_step_snoc.
    destruct (isinstance_LiteralExpr x && isinstance_LiteralExpr i) eqn:Hlit.
    + destruct i; try (by rewrite andb_false_r in Hlit).
      destruct x; try discriminate.
      apply IH. by eapply no_adjacent_literals_last; [|exact Hout].
    + assert (Hstep : match i, x with
                      | LiteralExpr v, LiteralExpr u =>
                          out ++ [LiteralExpr (u +:+ v)]
                      | _, _ => out ++ [x; i]
                      end = (out ++ [x]) ++ [i]).
      { rewrite <- app_assoc. by destruct i, x. }
      rewrite Hstep. apply IH. rewrite <- app_assoc. simpl.
      rewrite no_adjacent_literals_snoc, Hout, Hlit. done.
Qed.

(** ... and leaves such a list as it is. *)
Lemma merge_fixed l out x :
  no_adjacent_literals (out ++ x :: l) = true ->
  fold_left merge_step l (out ++ [x]) = out ++ x :: l.
Proof.
  revert out x. induction l as [|i l IH]; intros out x Hl; [done|].
  apply no_adjacent_literals_app_inv in Hl as [Hlit Hl].
  simpl. rewrite merge_step_snoc.
  assert (Hstep : match i, x with
                  | LiteralExpr v, LiteralExpr u =>
                      out ++ [LiteralExpr (u +:+ v)]
                  | _, _ => out ++ [x; i]
                  end = (out ++ [x]) ++ [i]).
  { rewrite <- app_assoc. destruct i, x; try done. }
  rewrite Hstep, (IH _ _ Hl). by rewrite <- app_assoc.
Qed.

Lemma merge_step_Forall (P : Expr -> Prop) out i :
  (forall v, P (LiteralExpr v)) ->
  Forall P out -> P i -> Forall P (merge_step out i).
Proof.
  intros Hlit Hout Hi. unfold merge_step.
  destruct i; try (apply Forall_app; by split; [|constructor]).
  destruct (last out) as [[]|];
    try (apply Forall_app; by split; [|constructor]).
  by apply Forall_insert.
Qed.

Lemma merge_Forall (P : Expr -> Prop) rest out :
  (forall v, P (LiteralExpr v)) ->
  Forall P out -> Forall P rest -> Forall P (fold_left merge_step rest out).
Proof.
  intros Hlit. revert out.
  induction rest as [|i rest IH]; intros out Hout Hrest; [done|].
  inversion Hrest; subst. simpl. apply IH; [|done]. by apply merge_step_Forall.
Qed.

Lemma comprehension_fixed (l : list Expr) :
  Forall (fun i => simplify i = Ok i) l -> comprehension simplify l = Ok l.
Proof.
  induction 1 as [|i l Hi _ IH]; [done|]. simpl. by rewrite Hi, IH.
Qed.

Lemma comprehension_Forall (P : Expr -> Prop) (l l' : list Expr) :
  Forall (fun i => forall i', simplify i = Ok i' -> P i') l ->
  comprehension simplify l = Ok l' -> Forall P l'.
Proof.
  intros Hl. revert l'. induction Hl as [|i l Hi _ IH]; intros l' Hc.
  - injection Hc as <-. constructor.
  - simpl in Hc. destruct (simplify i) as [i'|]; [|done].
    destruct (comprehension simplify l) as [rest'|]; [|done].
    injection Hc as <-. constructor; [by apply Hi | by apply IH].
Qed.

Lemma settled_items (l : list Expr) (Q : Expr -> Prop) :
  Forall (fun i => references_settled i -> Q i) l ->
  foldr (fun i rest => references_settled i /\ rest) True l ->
  Forall Q l.
Proof.
  induction 1 as [|i l Hi _ IH]; simpl; [constructor|].
  intros [Hs Hrest]. constructor; [by apply Hi | by apply IH].
Qed.

(** What [simplify] returns, it returns again when applied to it. *)
Lemma simplify_fixed e :
  references_settled e -> forall e', simplify e = Ok e' -> simplify e' = Ok e'.
Proof.
  induction e as [items IH|items IH|components anchor IH|e Hl Hc Hp]
    using Expr_items_ind; intros Hsettled e' He.
  - simpl in *. apply (settled_items _ _ IH) in Hsettled.
    destruct (comprehension simplify items) as [items'|] eqn:Hitems; [|done].
    injection He as <-. simpl.
    by rewrite (comprehension_fixed _
                  (comprehension_Forall _ _ _ Hsettled Hitems)).
  - simpl in *. apply (settled_items _ _ IH) in Hsettled.
    destruct (comprehension simplify items) as [items'|] eqn:Hitems; [|done].
    simpl in He. destruct items' as [|i0 rest]; [done|]. injection He as <-.
    pose proof (comprehension_Forall _ _ _ Hsettled Hitems) as Hfixed.
    inversion Hfixed as [|? ? Hi0 Hrest]; subst.
    destruct (merge_no_adjacent_literals rest [] i0 eq_refl)
      as (out' & x' & Hout & Hnal).
    simpl in Hout.
    assert (Hall : Forall (fun i => simplify i = Ok i)
                          (fold_left merge_step rest [i0])).
    { apply merge_Forall; [done| |done]. by constructor. }
    simpl. rewrite (comprehension_fixed _ Hall). simpl.
    rewrite Hout in *.
    destruct out' as [|o0 out']; simpl; [done|].
    f_equal. f_equal. by apply (merge_fixed _ [] o0).
  - simpl in *. apply (settled_items _ _ IH) in Hsettled.
    destruct (comprehension simplify components) as [items'|] eqn:Hitems;
      [|done].
    injection He as <-. simpl.
    by rewrite (comprehension_fixed _
                  (comprehension_Forall _ _ _ Hsettled Hitems)).
  - destruct e; try (by injection He as <-); try (by edestruct Hl);
      try (by edestruct Hc); try (by edestruct Hp).
    simpl in *. unfold get_value in *.
    destruct (get_variable_value context var) as [v|] eqn:Hv; [|done].
    injection He as <-. by apply Hsettled.
Qed.

End Simplify.

Lemma without_references_settled get_variable_value e :
  without_references e = true -> references_settled get_variable_value e.
Proof.
  induction e as [items IH|items IH|components anchor IH|e Hl Hc Hp]
    using Expr_items_ind; simpl.
  1-3: induction IH as [|i l Hi _ IHl]; simpl; [done|];
       intros [? ?]%andb_prop; split; [by apply Hi | by apply IHl].
  destruct e; try done;
    first [by edestruct Hl | by edestruct Hc | by edestruct Hp].
Qed.

(** C8 (as amended): [simplify(simplify(e))] is [simplify(e)] for every
    expression [e] in which each reference that [simplify] looks up refers
    to a value that [simplify] returns as it is; expressions without
    references are among them. *)
Theorem simplify_idempotent get_variable_value e :
  references_settled get_variable_value e ->
  simplify_twice get_variable_value e = simplify get_variable_value e.
Proof.
  intros Hsettled. unfold simplify_twice.
  destruct (simplify get_variable_value e) as [e'|] eqn:He; [|done].
  simpl. by apply (simplify_fixed _ e).
Qed.

Lemma simplify_idempotent_witness :
  simplify_twice model.sample_lookup
    (ConcatExpr [LiteralExpr "lib"; ReferenceExpr "y" (Some [0]);
                 NullExpr; LiteralExpr ".c"])
  = simplify model.sample_lookup
      (ConcatExpr [LiteralExpr "lib"; ReferenceExpr "y" (Some [0]);
                   NullExpr; LiteralExpr ".c"]).
Proof.
  apply simplify_idempotent. simpl. repeat split.
  intros v Hv. vm_compute in Hv. injection Hv as <-. reflexivity.
Defined.

(** C8, as stated, fails: [x] refers to [y] and [y] holds the literal [a];
    [simplify] of the reference to [x] is the reference to [y], and
    [simplify] of that is the literal. *)
Lemma simplify_not_idempotent :
  simplify model.sample_lookup (ReferenceExpr "x" (Some [0]))
  = Ok (ReferenceExpr "y" (Some [0]))
  /\ simplify_twice model.sample_lookup (ReferenceExpr "x" (Some [0]))
     = Ok (LiteralExpr "a")
  /\ simplify_twice model.sample_lookup (ReferenceExpr "x" (Some [0]))
     <> simplify model.sample_lookup (ReferenceExpr "x" (Some [0])).
Proof.
  split; [|split].
  - vm_compute. reflexivity.
  - vm_compute. reflexivity.
  - vm_compute. discriminate.
Qed.

End expr_facts.

(** ** The dependency ledger: recording, saving and loading *)

Module ledger_facts.
Import dependencies.
Local Open Scope Z_scope.

Lemma loadDb_merges {K V : Type} `{Countable K}
    (as_db : Pickled -> option (gmap K V)) obj rest db orig :
  as_db obj = Some db ->
  __loadDb as_db (obj :: rest) orig = (Ok (db ∪ orig), rest).
Proof.
  intros Hobj. unfold __loadDb. simpl. rewrite Hobj.
  case_bool_decide as Hsize.
  - apply map_size_empty_inv in Hsize as ->. by rewrite (right_id_L ∅ (∪)).
  - do 2 f_equal.
    apply (map_fold_weak_ind (fun r m => r = m ∪ orig)).
    + by rewrite (left_id_L ∅ (∪)).
    + intros i x m r _ ->. by rewrite insert_union_l.
Qed.

Lemma load_dumped files filename file memory :
  files !! filename = Some (dumped file) ->
  load files filename memory
  = (Ok tt, {| globals := merged file memory; unread := [] |}).
Proof.
  intros Hfile. unfold load. rewrite Hfile. unfold dumped.
  cbn [cPickle_load equals_int]. rewrite Z.eqb_refl. cbn [negb].
  rewrite (loadDb_merges as_deps _ _ (deps_db file)) by done.
  cbn [modtimes_db].
  rewrite (loadDb_merges as_modtimes _ _ (modtimes_db file)) by done.
  cbn [cmdlines_db].
  by rewrite (loadDb_merges as_cmdlines _ _ (cmdlines_db file)).
Qed.

Lemma merged_initial file : merged file initial_globals = file.
Proof.
  destruct file as [d m c]. unfold merged. simpl.
  by rewrite !(right_id_L ∅ (∪)).
Qed.

(** X1: what [save] wrote, [load] reads back without an error and to the
    end of the file: the globals become those saved, merged into those in
    memory with the saved entries winning; loaded into the initial, empty
    globals they are exactly the globals saved. *)
Theorem save_then_load writable files filename saved memory :
  writable filename = true ->
  load (save writable files filename saved).2 filename memory
  = (Ok tt, {| globals := merged saved memory; unread := [] |})
  /\ load (save writable files filename saved).2 filename initial_globals
     = (Ok tt, {| globals := saved; unread := [] |}).
Proof.
  intros Hw. unfold save. rewrite Hw. cbn [snd].
  split.
  - apply load_dumped, lookup_insert_eq.
  - rewrite (load_dumped _ _ saved) by apply lookup_insert_eq.
    by rewrite merged_initial.
Qed.

Lemma save_then_load_witness :
  load (save (fun _ => true) ∅ "bakefile_gen.state"
          (recorded_ledger "gnu" "replace" ["--foo"] 100)).2
       "bakefile_gen.state" ledger_without_outputs
  = (Ok tt,
     {| globals := merged (recorded_ledger "gnu" "replace" ["--foo"] 100)
                          ledger_without_outputs;
        unread := [] |})
  /\ load (save (fun _ => true) ∅ "bakefile_gen.state"
             (recorded_ledger "gnu" "replace" ["--foo"] 100)).2
          "bakefile_gen.state" initial_globals
     = (Ok tt,
        {| globals := recorded_ledger "gnu" "replace" ["--foo"] 100;
           unread := [] |}).
Proof. apply save_then_load. reflexivity. Defined.

(** X2: [load] is not atomic.  On a file that ends after the first map it
    raises [EOFError] when [deps_db] has already been replaced by the merged
    map, while [modtimes_db] and [cmdlines_db] are still the old ones. *)
Theorem load_truncated_file files filename db memory :
  files !! filename = Some [PickledInt DEPS_FORMAT_VERSION; PickledDeps db] ->
  load files filename memory
  = (Raise EOFError,
     {| globals := {| deps_db := db ∪ deps_db memory;
                      modtimes_db := modtimes_db memory;
                      cmdlines_db := cmdlines_db memory |};
        unread := [] |}).
Proof.
  intros Hfile. unfold load. rewrite Hfile.
  cbn [cPickle_load equals_int]. rewrite Z.eqb_refl. cbn [negb].
  by rewrite (loadDb_merges as_deps _ _ db).
Qed.

Lemma load_truncated_file_witness :
  load {[ "state" := [PickledInt DEPS_FORMAT_VERSION;
                      PickledDeps (deps_db ledger_without_outputs)] ]}
       "state" initial_globals
  = (Raise EOFError,
     {| globals := {| deps_db := deps_db ledger_without_outputs
                                 ∪ deps_db initial_globals;
                      modtimes_db := modtimes_db initial_globals;
                      cmdlines_db := cmdlines_db initial_globals |};
        unread := [] |}).
Proof. apply load_truncated_file. apply lookup_singleton_eq. Defined.

(** [needsUpdate] in closed form. *)
Lemma needsUpdate_decision g fs bakefile format cmdline :
  needsUpdate g fs bakefile format cmdline
  = match deps_db g !! (bakefile, format), cmdlines_db g !! (bakefile, format)
    with
    | Some info, Some recorded =>
        if bool_decide (cmdline ≠ recorded) then Ok 1
        else match fs !! bakefile with
             | None => Raise OSError
             | Some st =>
                 if up_to_date g fs info (st_mtime st) then Ok 0 else Ok 1
             end
    | _, _ => Ok 1
    end.
Proof.
  unfold needsUpdate.
  destruct (deps_db g !! _) as [info|]; [|done].
  destruct (cmdlines_db g !! _) as [recorded|]; [|done].
  case_bool_decide; [done|].
  unfold stat_mtime at 1. destruct (fs !! bakefile) as [st|]; [|done].
  cbn [mbind Result_bind]. unfold up_to_date, oldest_effective_time.
  destruct (forallb (fun o => isfile fs o.1) (outputs info)) eqn:Hall.
  - rewrite dependencies_facts.outputs_loop_all_files by done.
    cbn [mbind Result_bind older_of andb].
    destruct (minimum _) as [oldest|]; [|done].
    destruct (oldest <? st_mtime st); [done|].
    rewrite dependencies_facts.deps_loop_spec. cbn [negb andb].
    by destruct (forallb (isfile fs) (deps info) && _).
  - by rewrite dependencies_facts.outputs_loop_missing.
Qed.

(** X3: [needsUpdate] returns 0 or 1 or raises [OSError], and it raises
    exactly when the key is known to both maps, the command line is the
    recorded one and the input file is not on disk. *)
Theorem needsUpdate_outcomes g fs bakefile format cmdline :
  (needsUpdate g fs bakefile format cmdline = Ok 0
   \/ needsUpdate g fs bakefile format cmdline = Ok 1
   \/ needsUpdate g fs bakefile format cmdline = Raise OSError)
  /\ (needsUpdate g fs bakefile format cmdline = Raise OSError
      <-> is_Some (deps_db g !! (bakefile, format))
          /\ cmdlines_db g !! (bakefile, format) = Some cmdline
          /\ fs !! bakefile = None).
Proof.
  rewrite needsUpdate_decision.
  destruct (deps_db g !! _) as [info|].
  2:{ split; [auto|]. split; [done|]. by intros [[? ?] _]. }
  destruct (cmdlines_db g !! _) as [recorded|].
  2:{ split; [auto|]. split; [done|]. by intros (_ & ? & _). }
  case_bool_decide as Hcmd.
  { split; [auto|]. split; [done|]. intros (_ & ? & _). congruence. }
  subst recorded.
  destruct (fs !! bakefile) as [st|].
  - split; [destruct (up_to_date _ _ _ _); auto|].
    split; [by destruct (up_to_date _ _ _ _)|]. by intros (_ & _ & ?).
  - split; [auto|]. split; [|done]. intros _. split; [by eexists|done].
Qed.

Lemma forallb_Permutation {A : Type} (f : A -> bool) l l' :
  l ≡ₚ l' -> forallb f l = forallb f l'.
Proof.
  induction 1 as [|x l l' _ IH|x y l|l l' l'' _ IH1 _ IH2]; simpl.
  - done.
  - by rewrite IH.
  - by rewrite !andb_assoc, (andb_comm (f y)).
  - by rewrite IH1.
Qed.

Lemma forallb_pointwise {A : Type} (f f' : A -> bool) l :
  (forall x, f x = f' x) -> forallb f l = forallb f' l.
Proof. intros Hf. induction l as [|x l IH]; simpl; [done|]. by rewrite Hf, IH. Qed.

Lemma minimum_Permutation l l' : l ≡ₚ l' -> minimum l = minimum l'.
Proof.
  induction 1 as [|x l l' _ IH|x y l|l l' l'' _ IH1 _ IH2]; simpl.
  - done.
  - by rewrite IH.
  - destruct (minimum l) as [m|]; f_equal; lia.
  - by rewrite IH1.
Qed.

Lemma up_to_date_Permutation g g' fs info info' t :
  outputs info ≡ₚ outputs info' ->
  deps info ≡ₚ deps info' ->
  modtimes_db g' = modtimes_db g ->
  up_to_date g' fs info' t = up_to_date g fs info t.
Proof.
  intros Houts Hdeps Hmod. unfold up_to_date, oldest_effective_time.
  rewrite <- (forallb_Permutation _ _ _ Houts).
  assert (Heff : forall f, effective_time g' fs f = effective_time g fs f).
  { intros f. unfold effective_time. by rewrite Hmod. }
  rewrite (minimum_Permutation
             (omap (fun o => effective_time g' fs o.1) (outputs info'))
             (omap (fun o => effective_time g fs o.1) (outputs info))).
  2:{ rewrite <- Houts.
      replace (omap (fun o => effective_time g' fs o.1) (outputs info))
        with (omap (fun o => effective_time g fs o.1) (outputs info));
        [done|].
      apply list_omap_ext, Forall_Forall2_diag, Forall_forall.
      intros o _. symmetry. apply Heff. }
  destruct (minimum _) as [oldest|]; [|done].
  by rewrite <- !(forallb_Permutation _ _ _ Hdeps).
Qed.

(** X4: the order in which outputs and dependencies were recorded does not
    matter to [needsUpdate]. *)
Theorem needsUpdate_order_irrelevant g g' fs bakefile format cmdline info info' :
  deps_db g !! (bakefile, format) = Some info ->
  deps_db g' !! (bakefile, format) = Some info' ->
  outputs info ≡ₚ outputs info' ->
  deps info ≡ₚ deps info' ->
  modtimes_db g' = modtimes_db g ->
  cmdlines_db g' = cmdlines_db g ->
  needsUpdate g' fs bakefile format cmdline
  = needsUpdate g fs bakefile format cmdline.
Proof.
  intros Hinfo Hinfo' Houts Hdeps Hmod Hcmd.
  rewrite !needsUpdate_decision, Hinfo, Hinfo', Hcmd.
  destruct (cmdlines_db g !! _); [|done].
  case_bool_decide; [done|].
  destruct (fs !! bakefile); [|done].
  by rewrite (up_to_date_Permutation g g' fs info info').
Qed.

Lemma needsUpdate_order_irrelevant_witness :
  needsUpdate (ledger_with [("b.mk", "replace"); ("a.mk", "replace")]
                           ["y.bkl"; "x.bkl"])
              (disk 10 5) "proj.bkl" "gnu" ["--foo"]
  = needsUpdate (ledger_with [("a.mk", "replace"); ("b.mk", "replace")]
                             ["x.bkl"; "y.bkl"])
                (disk 10 5) "proj.bkl" "gnu" ["--foo"].
Proof.
  apply (needsUpdate_order_irrelevant _ _ _ _ _ _
           {| deps := ["x.bkl"; "y.bkl"];
              outputs := [("a.mk", "replace"); ("b.mk", "replace")] |}
           {| deps := ["y.bkl"; "x.bkl"];
              outputs := [("b.mk", "replace"); ("a.mk", "replace")] |}).
  - reflexivity.
  - reflexivity.
  - simpl. apply perm_swap.
  - simpl. apply perm_swap.
  - reflexivity.
  - reflexivity.
Defined.

(** What the recording functions leave under a key of [deps_db]. *)

Lemma ensure_record_lookup key db k :
  ensure_record key db !! k
  = if decide (key = k) then Some (default new_record (db !! key))
    else db !! k.
Proof.
  unfold ensure_record. case_decide as Hk.
  - subst k. destruct (db !! key) as [r|] eqn:Hr; simpl; [done|].
    apply lookup_insert_eq.
  - destruct (db !! key); [done|]. by rewrite lookup_insert_ne.
Qed.

Lemma addDependency_lookup bakefile format dependency_file g k :
  bakefile <> dependency_file ->
  deps_db (addDependency bakefile format dependency_file g) !! k
  = if decide ((bakefile, format) = k)
    then let r := default new_record (deps_db g !! k) in
         Some {| deps := deps r ++ [dependency_file]; outputs := outputs r |}
    else deps_db g !! k.
Proof.
  intros Hne. unfold addDependency.
  rewrite bool_decide_eq_false_2 by done. cbn [deps_db].
  rewrite lookup_alter. case_decide as Hk.
  - subst k. rewrite ensure_record_lookup. by rewrite decide_True.
  - rewrite ensure_record_lookup. by rewrite decide_False.
Qed.

Lemma addOutput_lookup now bakefile format output_file output_method g k :
  deps_db (addOutput now bakefile format output_file output_method g) !! k
  = if decide ((bakefile, format) = k)
    then let r := default new_record (deps_db g !! k) in
         Some {| deps := deps r;
                 outputs := outputs r ++ [(output_file, output_method)] |}
    else deps_db g !! k.
Proof.
  unfold addOutput. cbn [deps_db].
  rewrite lookup_alter. case_decide as Hk.
  - subst k. rewrite ensure_record_lookup. by rewrite decide_True.
  - rewrite ensure_record_lookup. by rewrite decide_False.
Qed.

(** X5: recording appends.  After [addDependency] of a file other than the
    bakefile, the key's record has that file as its last dependency and the
    outputs it had; after [addOutput] it has that output as its last output,
    the dependencies it had, and the output's modtime is the time of the
    call; a key that was unknown starts from an empty record; every other
    key, and with [addDependency] every modtime, is as before. *)
Theorem recording_appends g bakefile format :
  let old := default new_record (deps_db g !! (bakefile, format)) in
  (forall dependency_file,
      bakefile <> dependency_file ->
      let g' := addDependency bakefile format dependency_file g in
      deps_db g' !! (bakefile, format)
      = Some {| deps := deps old ++ [dependency_file];
                outputs := outputs old |}
      /\ (forall k, k <> (bakefile, format) ->
                    deps_db g' !! k = deps_db g !! k)
      /\ modtimes_db g' = modtimes_db g
      /\ cmdlines_db g' = cmdlines_db g)
  /\ (forall now output_file output_method,
        let g' := addOutput now bakefile format output_file output_method g in
        deps_db g' !! (bakefile, format)
        = Some {| deps := deps old;
                  outputs := outputs old ++ [(output_file, output_method)] |}
        /\ (forall k, k <> (bakefile, format) ->
                      deps_db g' !! k = deps_db g !! k)
        /\ modtimes_db g' !! output_file = Some now
        /\ (forall f, f <> output_file ->
                      modtimes_db g' !! f = modtimes_db g !! f)
        /\ cmdlines_db g' = cmdlines_db g).
Proof.
  intros old. split.
  - intros d Hne g'. subst g'. split; [|split; [|split]].
    + rewrite addDependency_lookup by done. by rewrite decide_True.
    + intros k Hk. rewrite addDependency_lookup by done.
      by rewrite decide_False.
    + unfold addDependency. by rewrite bool_decide_eq_false_2.
    + unfold addDependency. by rewrite bool_decide_eq_false_2.
  - intros now o m g'. subst g'. split; [|split; [|split; [|split]]].
    + rewrite addOutput_lookup. by rewrite decide_True.
    + intros k Hk. rewrite addOutput_lookup. by rewrite decide_False.
    + apply lookup_insert_eq.
    + intros f Hf. unfold addOutput. cbn [modtimes_db].
      by rewrite lookup_insert_ne.
    + done.
Qed.

(** X6: no recording function ever lists a bakefile among its own
    dependencies: the initial globals have no such entry, and
    [addDependency], [addOutput] and [addCmdLine] keep it that way. *)
Theorem recording_keeps_no_self_dependency :
  no_self_dependency initial_globals
  /\ forall g,
      no_self_dependency g ->
      (forall bakefile format dependency_file,
          no_self_dependency (addDependency bakefile format dependency_file g))
      /\ (forall now bakefile format output_file output_method,
            no_self_dependency
              (addOutput now bakefile format output_file output_method g))
      /\ (forall bakefile format cmdline,
            no_self_dependency (addCmdLine bakefile format cmdline g)).
Proof.
  split; [by intros b f info|].
  intros g Hg. split; [|split].
  - intros b f d b' f' info.
    destruct (decide (b = d)) as [->|Hne].
    { unfold addDependency. rewrite bool_decide_eq_true_2 by done. apply Hg. }
    rewrite addDependency_lookup by done. case_decide as Hk.
    + injection Hk as -> ->. intros [= <-]. cbn [deps].
      rewrite elem_of_app, list_elem_of_singleton. intros [Hin|?]; [|done].
      destruct (deps_db g !! (b', f')) as [r|] eqn:Hr; simpl in Hin.
      * by apply (Hg _ _ _ Hr).
      * by apply elem_of_nil in Hin.
    + apply Hg.
  - intros now b f o m b' f' info. rewrite addOutput_lookup.
    case_decide as Hk.
    + injection Hk as -> ->. intros [= <-]. cbn [deps].
      destruct (deps_db g !! (b', f')) as [r|] eqn:Hr; simpl.
      * by apply (Hg _ _ _ Hr).
      * apply not_elem_of_nil.
    + apply Hg.
  - intros b f c b' f' info. apply Hg.
Qed.

(** X7: a generation that has just been recorded is up to date.  For a key
    that was unknown, after [addCmdLine], [addDependency] and [addOutput] at
    time [now], [needsUpdate] with the same command line returns 0 as long as
    the output and the dependency are files on disk and neither the input nor
    the dependency was modified after [now], whatever the mtime of the
    output. *)
Theorem fresh_generation_is_up_to_date now g fs bakefile format cmdline
    dep out method bst dst ost :
  deps_db g !! (bakefile, format) = None ->
  bakefile <> dep ->
  fs !! bakefile = Some bst -> st_mtime bst <= now ->
  fs !! dep = Some dst -> is_regular_file dst = true -> st_mtime dst <= now ->
  fs !! out = Some ost -> is_regular_file ost = true ->
  needsUpdate
    (addOutput now bakefile format out method
       (addDependency bakefile format dep
          (addCmdLine bakefile format cmdline g)))
    fs bakefile format cmdline
  = Ok 0.
Proof.
  intros Hnew Hne Hb Hbt Hd Hdf Hdt Ho Hof.
  set (g' := addOutput _ _ _ _ _ _).
  assert (Hinfo : deps_db g' !! (bakefile, format)
                  = Some {| deps := [dep]; outputs := [(out, method)] |}).
  { subst g'. rewrite addOutput_lookup, decide_True by done.
    rewrite addDependency_lookup, decide_True by done.
    cbn [addCmdLine deps_db]. by rewrite Hnew. }
  assert (Hcmd : cmdlines_db g' !! (bakefile, format) = Some cmdline).
  { subst g'. unfold addOutput, addDependency.
    rewrite bool_decide_eq_false_2 by done. apply lookup_insert_eq. }
  assert (Hmod : modtimes_db g' !! out = Some now) by apply lookup_insert_eq.
  rewrite needsUpdate_decision, Hinfo, Hcmd.
  rewrite bool_decide_eq_false_2 by (intros Hc; by apply Hc).
  rewrite Hb.
  unfold up_to_date, oldest_effective_time, effective_time, isfile, mtime.
  cbn [outputs deps forallb omap list_omap fst]. rewrite Ho, Hof, Hd, Hdf, Hmod.
  cbn [minimum andb fmap option_fmap option_map older].
  replace (Z.max now (st_mtime ost) <? st_mtime bst) with false
    by (symmetry; apply Z.ltb_ge; lia).
  replace (Z.max now (st_mtime ost) <? st_mtime dst) with false
    by (symmetry; apply Z.ltb_ge; lia).
  reflexivity.
Qed.

Lemma fresh_generation_is_up_to_date_witness :
  needsUpdate
    (addOutput 100 "proj.bkl" "gnu" "out.mk" "replace"
       (addDependency "proj.bkl" "gnu" "common.bkl"
          (addCmdLine "proj.bkl" "gnu" ["--foo"] initial_globals)))
    (<["common.bkl" := {| is_regular_file := true; st_mtime := 50 |}]>
       (disk 20 90))
    "proj.bkl" "gnu" ["--foo"]
  = Ok 0.
Proof.
  apply (fresh_generation_is_up_to_date 100 initial_globals _ "proj.bkl" "gnu"
           ["--foo"] "common.bkl" "out.mk" "replace"
           {| is_regular_file := true; st_mtime := 90 |}
           {| is_regular_file := true; st_mtime := 50 |}
           {| is_regular_file := true; st_mtime := 20 |}).
  - reflexivity.
  - discriminate.
  - vm_compute. reflexivity.
  - simpl. lia.
  - vm_compute. reflexivity.
  - reflexivity.
  - simpl. lia.
  - vm_compute. reflexivity.
  - reflexivity.
Defined.

Lemma minimum_effective_mono g fs fs' (outs : list (string * string)) :
  (forall f t, effective_time g fs f = Some t ->
               exists t', effective_time g fs' f = Some t' /\ t <= t') ->
  (forall f, effective_time g fs f = None -> effective_time g fs' f = None) ->
  match minimum (omap (fun o => effective_time g fs o.1) outs) with
  | Some m =>
      exists m',
        minimum (omap (fun o => effective_time g fs' o.1) outs) = Some m'
        /\ m <= m'
  | None => minimum (omap (fun o => effective_time g fs' o.1) outs) = None
  end.
Proof.
  intros Hsome Hnone.
  induction outs as [|o outs IH]; [done|].
  cbn [omap list_omap].
  destruct (effective_time g fs o.1) as [t|] eqn:Ht.
  - destruct (Hsome _ _ Ht) as (t' & -> & Hle). cbn [minimum].
    destruct (minimum (omap (fun o => effective_time g fs o.1) outs)) as [r|].
    + destruct IH as (r' & -> & Hr'). eexists. split; [done|]. lia.
    + rewrite IH. eexists. split; [done|]. lia.
  - by rewrite (Hnone _ Ht).
Qed.

(** X8: touching a file never makes an up-to-date key stale, unless the
    file is the input or one of the dependencies: when [needsUpdate] returns
    0, it still returns 0 after the mtime of such a file, an output for
    one, has moved forward. *)
Theorem touching_keeps_up_to_date g fs bakefile format cmdline info f st t' :
  needsUpdate g fs bakefile format cmdline = Ok 0 ->
  deps_db g !! (bakefile, format) = Some info ->
  fs !! f = Some st -> st_mtime st <= t' ->
  f <> bakefile -> f ∉ deps info ->
  needsUpdate g
    (<[f := {| is_regular_file := is_regular_file st; st_mtime := t' |}]> fs)
    bakefile format cmdline
  = Ok 0.
Proof.
  intros Hup Hinfo Hf Ht Hfb Hfd.
  set (fs' := <[f := _]> fs).
  rewrite needsUpdate_decision in *. rewrite Hinfo in *.
  destruct (cmdlines_db g !! _) as [recorded|]; [|done].
  case_bool_decide; [done|].
  assert (Hb : fs' !! bakefile = fs !! bakefile)
    by (subst fs'; by rewrite lookup_insert_ne).
  rewrite Hb. destruct (fs !! bakefile) as [bst|]; [|done].
  destruct (up_to_date g fs info (st_mtime bst)) eqn:Hutd; [|done].
  assert (Hisfile : forall x, isfile fs' x = isfile fs x).
  { intros x. unfold isfile. subst fs'.
    destruct (decide (f = x)) as [->|Hx].
    - by rewrite lookup_insert_eq, Hf.
    - by rewrite lookup_insert_ne. }
  assert (Hlater : forall x t, effective_time g fs x = Some t ->
                     exists t', effective_time g fs' x = Some t' /\ t <= t').
  { intros x t. unfold effective_time. subst fs'.
    destruct (decide (f = x)) as [->|Hx].
    - rewrite lookup_insert_eq, Hf. cbn [st_mtime].
      destruct (modtimes_db g !! x); intros [= <-];
        eexists; (split; [done|]); lia.
    - rewrite lookup_insert_ne by done. intros ->.
      eexists. split; [done|lia]. }
  assert (Hnone : forall x, effective_time g fs x = None ->
                            effective_time g fs' x = None).
  { intros x. unfold effective_time. subst fs'.
    destruct (decide (f = x)) as [->|Hx].
    - rewrite Hf. by destruct (modtimes_db g !! x).
    - by rewrite lookup_insert_ne. }
  assert (Hutd' : up_to_date g fs' info (st_mtime bst) = true);
    [|by rewrite Hutd'].
  unfold up_to_date, oldest_effective_time in *.
  apply andb_prop in Hutd as [Hfiles Hrest].
  rewrite (forallb_pointwise _ (fun o => isfile fs o.1))
    by (intros; apply Hisfile).
  rewrite Hfiles. cbn [andb].
  pose proof (minimum_effective_mono g fs fs' (outputs info) Hlater Hnone)
    as Hmono.
  destruct (minimum (omap (fun o => effective_time g fs o.1) (outputs info)))
    as [m|]; [|done].
  destruct Hmono as (m' & -> & Hle).
  apply andb_prop in Hrest as [[Hbt Hdfiles]%andb_prop Hdeps].
  apply andb_true_intro. split; [apply andb_true_intro; split|].
  - apply negb_true_iff, Z.ltb_ge. apply negb_true_iff, Z.ltb_ge in Hbt. lia.
  - by rewrite (forallb_pointwise _ (isfile fs)) by apply Hisfile.
  - rewrite forallb_forall in *. intros d Hd. specialize (Hdeps d Hd).
    assert (Hdf : mtime fs' d = mtime fs d).
    { unfold mtime. subst fs'. rewrite lookup_insert_ne; [done|].
      intros ->. apply Hfd. by apply list_elem_of_In. }
    rewrite Hdf. destruct (mtime fs d) as [dt|]; [|done].
    cbn [older] in *. apply negb_true_iff, Z.ltb_ge.
    apply negb_true_iff, Z.ltb_ge in Hdeps. lia.
Qed.

Lemma touching_keeps_up_to_date_witness :
  needsUpdate (recorded_ledger "gnu" "replace" ["--foo"] 100)
    (<["out.mk" := {| is_regular_file := true; st_mtime := 500 |}]>
       (disk 110 105))
    "proj.bkl" "gnu" ["--foo"]
  = Ok 0.
Proof.
  apply (touching_keeps_up_to_date _ (disk 110 105) _ _ _
           {| deps := []; outputs := [("out.mk", "replace")] |} "out.mk"
           {| is_regular_file := true; st_mtime := 110 |} 500).
  - vm_compute. reflexivity.
  - reflexivity.
  - vm_compute. reflexivity.
  - simpl. lia.
  - discriminate.
  - apply not_elem_of_nil.
Defined.

End ledger_facts.

(** ** Expressions: evaluation, printing, constants *)

Module evaluation_facts.
Import expr.

Lemma each_app {A B : Type} (f : A -> Evaluated B) l1 l2 :
  each f (l1 ++ l2)
  = match each f l1 with
    | Raised exn => Raised exn
    | Returned v1 =>
        match each f l2 with
        | Raised exn => Raised exn
        | Returned v2 => Returned (v1 ++ v2)
        end
    end.
Proof.
  induction l1 as [|i l1 IH]; simpl.
  - by destruct (each f l2).
  - destruct (f i); [|done]. rewrite IH.
    destruct (each f l1); [|done]. by destruct (each f l2).
Qed.

Lemma each_Forall2 {A B : Type} (f : A -> Evaluated B) l l' :
  Forall2 (fun i' i => f i' = f i) l' l -> each f l' = each f l.
Proof. induction 1 as [|i' i l' l Hi _ IH]; simpl; [done|]. by rewrite Hi, IH. Qed.

Lemma strings_of_app v1 v2 :
  strings_of (v1 ++ v2)
  = match strings_of v1, strings_of v2 with
    | Some s1, Some s2 => Some (s1 ++ s2)
    | _, _ => None
    end.
Proof.
  induction v1 as [|[s| |] v1 IH]; simpl; try done.
  - by destruct (strings_of v2).
  - rewrite IH. destruct (strings_of v1); [|done]. by destruct (strings_of v2).
Qed.

Lemma string_app_cons x (a b : string) :
  String x a +:+ b = String x (a +:+ b).
Proof. reflexivity. Qed.

Lemma string_app_empty_l (a : string) : EmptyString +:+ a = a.
Proof. reflexivity. Qed.

Lemma string_app_assoc (a b c : string) : (a +:+ b) +:+ c = a +:+ (b +:+ c).
Proof.
  induction a as [|x a IH]; [done|]. by rewrite !string_app_cons, IH.
Qed.

Lemma string_app_empty_r (a : string) : a +:+ EmptyString = a.
Proof. induction a as [|x a IH]; [done|]. by rewrite string_app_cons, IH. Qed.

Lemma join_strings_cons sep s l :
  join_strings sep (s :: l)
  = match l with [] => s | _ => s +:+ sep +:+ join_strings sep l end.
Proof. by destruct l. Qed.

Lemma join_empty_app l1 l2 :
  join_strings EmptyString (l1 ++ l2)
  = join_strings EmptyString l1 +:+ join_strings EmptyString l2.
Proof.
  induction l1 as [|s l1 IH]; [done|].
  change ((s :: l1) ++ l2) with (s :: (l1 ++ l2)).
  rewrite !join_strings_cons, IH.
  destruct l1 as [|s' l1].
  - change ([] ++ l2) with l2. change (join_strings EmptyString []) with "".
    destruct l2; [by rewrite string_app_empty_r|].
    by rewrite !string_app_empty_l.
  - change ((s' :: l1) ++ l2) with (s' :: (l1 ++ l2)). cbv iota.
    by rewrite !string_app_empty_l, string_app_assoc.
Qed.

Section Evaluation.
Variable os_path_sep : string.
Variable as_py_other : Expr -> Evaluated PyValue.
Variable str_other : Expr -> string.

Abbreviation as_py := (as_py os_path_sep as_py_other).
Abbreviation str := (__str__ str_other).

(** Replacing a run of items of a concatenation by items with the same
    joined text changes neither its value nor its text. *)
Lemma as_py_concat_replace pre m1 m2 post v1 v2 s1 s2 :
  each as_py m1 = Returned v1 -> strings_of v1 = Some s1 ->
  each as_py m2 = Returned v2 -> strings_of v2 = Some s2 ->
  join_strings EmptyString s1 = join_strings EmptyString s2 ->
  as_py (ConcatExpr (pre ++ m1 ++ post)) = as_py (ConcatExpr (pre ++ m2 ++ post)).
Proof.
  intros H1 Hs1 H2 Hs2 Hjoin. simpl. rewrite !each_app, H1, H2.
  destruct (each as_py pre) as [vpre|]; [|done].
  destruct (each as_py post) as [vpost|]; [|done].
  unfold join. rewrite !strings_of_app, Hs1, Hs2.
  destruct (strings_of vpre); [|done]. destruct (strings_of vpost); [|done].
  by rewrite !join_empty_app, Hjoin.
Qed.

Lemma merge_keeps_value rest out x :
  as_py (ConcatExpr (fold_left merge_step rest (out ++ [x])))
  = as_py (ConcatExpr (out ++ [x] ++ rest)).
Proof.
  revert out x. induction rest as [|i rest IH]; intros out x; [done|].
  cbn [fold_left]. rewrite expr_facts.merge_step_snoc.
  destruct i as [v| | | | | | | |];
    try (change (out ++ [x; ?i]) with (out ++ [x] ++ [i]);
         rewrite (app_assoc out [x]), IH, <- !app_assoc; reflexivity).
  destruct x as [u| | | | | | | |];
    try (change (out ++ [?x; ?i]) with (out ++ [x] ++ [i]);
         rewrite (app_assoc out [_]), IH, <- !app_assoc; reflexivity).
  rewrite IH.
  by apply (as_py_concat_replace out [LiteralExpr (u +:+ v)]
              [LiteralExpr u; LiteralExpr v] rest
              [PyStr (u +:+ v)] [PyStr u; PyStr v] [u +:+ v] [u; v]).
Qed.

Lemma merge_keeps_text rest out x :
  str (ConcatExpr (fold_left merge_step rest (out ++ [x])))
  = str (ConcatExpr (out ++ [x] ++ rest)).
Proof.
  revert out x. induction rest as [|i rest IH]; intros out x; [done|].
  cbn [fold_left]. rewrite expr_facts.merge_step_snoc.
  destruct i as [v| | | | | | | |];
    try (change (out ++ [x; ?i]) with (out ++ [x] ++ [i]);
         rewrite (app_assoc out [x]), IH, <- !app_assoc; reflexivity).
  destruct x as [u| | | | | | | |];
    try (change (out ++ [?x; ?i]) with (out ++ [x] ++ [i]);
         rewrite (app_assoc out [_]), IH, <- !app_assoc; reflexivity).
  rewrite IH. cbn [__str__].
  rewrite !fmap_app, !join_empty_app. cbn [fmap list_fmap __str__ join_strings].
  f_equal. rewrite string_app_assoc. f_equal.
  destruct (__str__ str_other <$> rest); [by rewrite string_app_empty_r|].
  by rewrite string_app_empty_l.
Qed.

Variable get_variable_value : Context -> string -> Result Expr.
Abbreviation simplify := (simplify get_variable_value).

Lemma comprehension_Forall2 (R : Expr -> Expr -> Prop) items items' :
  Forall (fun i => without_references i = true ->
                   forall i', simplify i = Ok i' -> R i' i) items ->
  forallb without_references items = true ->
  comprehension simplify items = Ok items' ->
  Forall2 R items' items.
Proof.
  intros Hall. revert items'.
  induction Hall as [|i items Hi _ IH]; intros items' Hfree Hc.
  - injection Hc as <-. constructor.
  - simpl in Hfree, Hc. apply andb_prop in Hfree as [Hfi Hfree].
    destruct (simplify i) as [i'|]; [|done].
    destruct (comprehension simplify items) as [rest'|]; [|done].
    injection Hc as <-. constructor; [by apply Hi | by apply IH].
Qed.

Lemma same_items_same_value items items' :
  Forall2 (fun i' i => as_py i' = as_py i /\ str i' = str i) items' items ->
  each as_py items' = each as_py items /\ str <$> items' = str <$> items.
Proof.
  induction 1 as [|i' i items' items [Hv Ht] _ [IHv IHt]]; [done|].
  split.
  - simpl. by rewrite Hv, IHv.
  - by rewrite !fmap_cons, Ht, IHt.
Qed.

Lemma simplify_keeps e :
  without_references e = true ->
  forall e', simplify e = Ok e' -> as_py e' = as_py e /\ str e' = str e.
Proof.
  induction e as [items IH|items IH|components anchor IH|e Hl Hc Hp]
    using expr_facts.Expr_items_ind; intros Hfree e' He; simpl in Hfree, He.
  - destruct (comprehension simplify items) as [items'|] eqn:Hitems; [|done].
    injection He as <-.
    destruct (same_items_same_value _ _
                (comprehension_Forall2 _ _ _ IH Hfree Hitems)) as [Hv Ht].
    simpl. by rewrite Hv, Ht.
  - destruct (comprehension simplify items) as [items'|] eqn:Hitems; [|done].
    simpl in He. destruct items' as [|i0 rest]; [done|]. injection He as <-.
    destruct (same_items_same_value _ _
                (comprehension_Forall2 _ _ _ IH Hfree Hitems)) as [Hv Ht].
    pose proof (merge_keeps_value rest [] i0) as Hmv.
    pose proof (merge_keeps_text rest [] i0) as Hmt.
    cbn [app] in Hmv, Hmt. rewrite Hmv, Hmt.
    split; [cbn [expr.as_py]; by rewrite Hv | cbn [__str__]; by rewrite Ht].
  - destruct (comprehension simplify components) as [items'|] eqn:Hitems;
      [|done].
    injection He as <-.
    destruct (same_items_same_value _ _
                (comprehension_Forall2 _ _ _ IH Hfree Hitems)) as [Hv Ht].
    simpl. by rewrite Hv, Ht.
  - destruct e; try (by injection He as <-); try done;
      first [by edestruct Hl | by edestruct Hc | by edestruct Hp].
Qed.

End Evaluation.

(** X9: on an expression without references, [simplify] changes neither
    the value nor the text: [as_py] returns or raises the same for the
    simplified expression as for the original, and [str] is the same string. *)
Theorem simplify_keeps_value_and_text os_path_sep as_py_other str_other
    get_variable_value e e' :
  without_references e = true ->
  simplify get_variable_value e = Ok e' ->
  as_py os_path_sep as_py_other e' = as_py os_path_sep as_py_other e
  /\ __str__ str_other e' = __str__ str_other e.
Proof. intros Hfree He. by apply (simplify_keeps _ _ _ get_variable_value e). Qed.

Lemma simplify_keeps_value_and_text_witness :
  as_py "/" (fun _ => Raised JoinTypeError)
    (ConcatExpr [LiteralExpr "libfoo"; NullExpr; LiteralExpr ".c"])
  = as_py "/" (fun _ => Raised JoinTypeError)
      (ConcatExpr [LiteralExpr "lib"; LiteralExpr "foo"; NullExpr;
                   LiteralExpr ".c"])
  /\ __str__ (fun _ => "?")
       (ConcatExpr [LiteralExpr "libfoo"; NullExpr; LiteralExpr ".c"])
     = __str__ (fun _ => "?")
         (ConcatExpr [LiteralExpr "lib"; LiteralExpr "foo"; NullExpr;
                      LiteralExpr ".c"]).
Proof.
  apply (simplify_keeps_value_and_text _ _ _ model.sample_lookup);
    reflexivity.
Defined.

Lemma comprehension_length {A B : Type} (f : A -> Result B) l l' :
  comprehension f l = Ok l' -> length l' = length l.
Proof.
  revert l'. induction l as [|i l IH]; intros l' Hc; simpl in Hc.
  - by injection Hc as <-.
  - destruct (f i); [|done]. destruct (comprehension f l); [|done].
    injection Hc as <-. simpl. by rewrite (IH _ eq_refl).
Qed.

Lemma comprehension_raises {A B : Type} (f : A -> Result B) l exn :
  comprehension f l = Raise exn -> Exists (fun i => f i = Raise exn) l.
Proof.
  induction l as [|i l IH]; simpl; [done|].
  destruct (f i) as [v|exn'] eqn:Hi.
  - destruct (comprehension f l); [done|].
    intros [= <-]. apply Exists_cons_tl. by apply IH.
  - intros [= <-]. by apply Exists_cons_hd.
Qed.

Lemma merge_length rest out :
  (length (fold_left merge_step rest out) <= length out + length rest)%nat.
Proof.
  revert out. induction rest as [|i rest IH]; intros out; simpl; [lia|].
  etrans; [apply IH|].
  assert (length (merge_step out i) <= S (length out))%nat; [|lia].
  unfold merge_step. destruct i; try (rewrite length_app; simpl; lia).
  destruct (last out) as [[]|]; try (rewrite length_app; simpl; lia).
  rewrite length_insert. lia.
Qed.

(** X10: [simplify] of a concatenation is a concatenation again, never
    empty and never longer, in which no two neighbouring items are both
    literals: every run of literals has been fused into one. *)
Theorem simplify_fuses_every_run get_variable_value items e' :
  simplify get_variable_value (ConcatExpr items) = Ok e' ->
  exists out,
    e' = ConcatExpr out
    /\ out <> []
    /\ (length out <= length items)%nat
    /\ no_adjacent_literals out = true.
Proof.
  simpl. intros He.
  destruct (comprehension _ items) as [items'|] eqn:Hitems; [|done].
  simpl in He. destruct items' as [|i0 rest]; [done|]. injection He as <-.
  destruct (expr_facts.merge_no_adjacent_literals rest [] i0 eq_refl)
    as (out' & x' & Hout & Hnal).
  simpl in Hout. eexists. split; [done|]. split; [|split].
  - rewrite Hout. by destruct out'.
  - apply comprehension_length in Hitems. rewrite <- Hitems.
    etrans; [apply merge_length|]. simpl. lia.
  - by rewrite Hout.
Qed.

Lemma simplify_fuses_every_run_witness :
  exists out,
    ConcatExpr [LiteralExpr "libfoo"; NullExpr; LiteralExpr ".c"]
    = ConcatExpr out
    /\ out <> []
    /\ (length out
        <= length [LiteralExpr "lib"; LiteralExpr "foo"; NullExpr;
                   LiteralExpr ".c"])%nat
    /\ no_adjacent_literals out = true.
Proof.
  apply (simplify_fuses_every_run model.sample_lookup). reflexivity.
Defined.

(** X11: [simplify] raises only what a variable lookup has raised, or
    [IndexError] (for a concatenation without items). *)
Theorem simplify_raises_only get_variable_value e exn :
  simplify get_variable_value e = Raise exn ->
  exn = IndexError
  \/ exists context var, get_variable_value context var = Raise exn.
Proof.
  induction e as [items IH|items IH|components anchor IH|e Hl Hc Hp]
    using expr_facts.Expr_items_ind; simpl; intros He.
  - destruct (comprehension _ items) as [items'|] eqn:Hitems; [done|].
    injection He as <-. apply comprehension_raises in Hitems.
    apply Exists_exists in Hitems as (i & Hi & Hr).
    rewrite Forall_forall in IH. by apply (IH i).
  - destruct (comprehension _ items) as [items'|] eqn:Hitems.
    + simpl in He. destruct items'; [|done]. injection He as <-. by left.
    + injection He as <-. apply comprehension_raises in Hitems.
      apply Exists_exists in Hitems as (i & Hi & Hr).
      rewrite Forall_forall in IH. by apply (IH i).
  - destruct (comprehension _ components) as [items'|] eqn:Hitems; [done|].
    injection He as <-. apply comprehension_raises in Hitems.
    apply Exists_exists in Hitems as (i & Hi & Hr).
    rewrite Forall_forall in IH. by apply (IH i).
  - destruct e as [| | | |var ctx| | | |]; try done;
      try (by edestruct Hl); try (by edestruct Hc); try (by edestruct Hp).
    simpl in He. unfold get_value in He.
    destruct (get_variable_value ctx var) eqn:Hv; [done|].
    injection He as <-. right. by exists ctx, var.
Qed.

Lemma simplify_raises_only_witness :
  Error "unknown variable" = IndexError
  \/ exists context var,
      model.sample_lookup context var = Raise (Error "unknown variable").
Proof.
  apply (simplify_raises_only model.sample_lookup
           (ListExpr [LiteralExpr "a"; ReferenceExpr "nowhere" (Some [0])])).
  reflexivity.
Defined.

Lemma product_singletons {A : Type} (l : list A) :
  product ((fun x => [x]) <$> l) = [l].
Proof.
  induction l as [|x l IH]; [done|].
  rewrite fmap_cons. cbn [product]. rewrite IH. reflexivity.
Qed.

(** X12: for a constant, i.e. an expression made of literals, non-empty
    concatenations and paths, [all_possible_values] yields exactly one
    value: the expression itself, whatever the variable lookup. *)
Theorem all_possible_values_of_constant get_variable_value e :
  is_constant e = true ->
  exists o,
    all_possible_values get_variable_value e = Ok [o]
    /\ as_Expr o = Some e.
Proof.
  induction e as [items IH|items IH|components anchor IH|e Hl Hc Hp]
    using expr_facts.Expr_items_ind; simpl; intros Hconst.
  - done.
  - destruct items as [|i0 rest]; [done|].
    assert (Hobjs : exists objs,
               comprehension (all_possible_values get_variable_value)
                             (i0 :: rest)
               = Ok ((fun o => [o]) <$> objs)
               /\ mapM as_Expr objs = Some (i0 :: rest)).
    { revert IH Hconst. generalize (i0 :: rest). clear.
      induction 1 as [|i l Hi _ IHl]; intros Hconst.
      - by exists [].
      - simpl in Hconst. apply andb_prop in Hconst as [Hc1 Hc2].
        destruct (Hi Hc1) as (o & Ho & Hoe).
        destruct (IHl Hc2) as (objs & Hobjs & Hm).
        exists (o :: objs). simpl. rewrite Ho, Hobjs. split; [done|].
        by rewrite Hoe, Hm. }
    destruct Hobjs as (objs & -> & Hm). cbn [mbind Result_bind].
    rewrite product_singletons. eexists. split; [done|].
    simpl. by rewrite Hm.
  - assert (Hobjs : exists objs,
               comprehension (all_possible_values get_variable_value)
                             components
               = Ok ((fun o => [o]) <$> objs)
               /\ mapM as_Expr objs = Some components).
    { revert IH Hconst. clear.
      induction 1 as [|i l Hi _ IHl]; intros Hconst.
      - by exists [].
      - simpl in Hconst. apply andb_prop in Hconst as [Hc1 Hc2].
        destruct (Hi Hc1) as (o & Ho & Hoe).
        destruct (IHl Hc2) as (objs & Hobjs & Hm).
        exists (o :: objs). simpl. rewrite Ho, Hobjs. split; [done|].
        by rewrite Hoe, Hm. }
    destruct Hobjs as (objs & -> & Hm). cbn [mbind Result_bind].
    rewrite product_singletons. eexists. split; [done|].
    simpl. by rewrite Hm.
  - destruct e; try done; try (by edestruct Hc); try (by edestruct Hp).
    eexists. split; reflexivity.
Qed.

Lemma all_possible_values_of_constant_witness :
  exists o,
    all_possible_values model.sample_lookup
      (PathExpr [LiteralExpr "src";
                 ConcatExpr [LiteralExpr "main"; LiteralExpr ".c"]]
                ANCHOR_SRCDIR)
    = Ok [o]
    /\ as_Expr o
       = Some (PathExpr [LiteralExpr "src";
                         ConcatExpr [LiteralExpr "main"; LiteralExpr ".c"]]
                        ANCHOR_SRCDIR).
Proof. apply all_possible_values_of_constant. reflexivity. Defined.

(** [str.split] for one character, as [split] uses it on literals. *)

Lemma str_split_cons c s : exists piece pieces, str_split c s = piece :: pieces.
Proof.
  induction s as [|a s (piece & pieces & IH)]; simpl; [by eexists _, _|].
  destruct (Ascii.eqb a c); [by eexists _, _|]. rewrite IH. by eexists _, _.
Qed.

Lemma str_split_snoc c s : exists pieces piece, str_split c s = pieces ++ [piece].
Proof.
  destruct (str_split_cons c s) as (x & l & ->).
  destruct (l) as [|y l' _] using rev_ind.
  - by exists [], x.
  - exists (x :: l'), y. done.
Qed.

Lemma str_split_join c s :
  join_strings (String c EmptyString) (str_split c s) = s.
Proof.
  induction s as [|a s IH]; [done|]. simpl.
  destruct (str_split_cons c s) as (piece & pieces & Hs). rewrite Hs in *.
  destruct (Ascii.eqb_spec a c) as [->|_].
  - rewrite join_strings_cons. by rewrite IH.
  - rewrite join_strings_cons. rewrite join_strings_cons in IH.
    destruct pieces; by rewrite <- IH.
Qed.

Lemma str_split_free c s :
  Forall (fun piece => free_of c piece = true) (str_split c s).
Proof.
  induction s as [|a s IH]; simpl; [by repeat constructor|].
  destruct (Ascii.eqb a c) eqn:Hac; [by constructor|].
  destruct (str_split c s) as [|piece pieces].
  - constructor; [simpl; by rewrite Hac | constructor].
  - inversion IH; subst. constructor; [|done]. simpl. by rewrite Hac.
Qed.

Lemma str_split_app c p t pieces piece first rest :
  str_split c p = pieces ++ [piece] ->
  str_split c t = first :: rest ->
  str_split c (p +:+ t) = pieces ++ [piece +:+ first] ++ rest.
Proof.
  revert pieces piece. induction p as [|a p IH]; intros pieces piece Hp Ht.
  - simpl in Hp. destruct pieces as [|x [|y pieces]]; try done.
    injection Hp as <-. by rewrite string_app_empty_l, Ht.
  - rewrite string_app_cons. simpl in *.
    destruct (str_split_snoc c p) as (pieces' & piece' & Hp').
    rewrite Hp' in Hp. rewrite (IH _ _ Hp' Ht).
    destruct (Ascii.eqb a c).
    + change (EmptyString :: pieces' ++ [piece'])
        with ((EmptyString :: pieces') ++ [piece']) in Hp.
      apply app_inj_tail in Hp as [<- <-]. done.
    + destruct pieces' as [|x pieces']; simpl in *.
      * destruct pieces as [|y [|z pieces]]; try done.
        by injection Hp as <-.
      * change (String a x :: pieces' ++ [piece'])
          with ((String a x :: pieces') ++ [piece']) in Hp.
        apply app_inj_tail in Hp as [<- <-]. done.
Qed.

Section SplitText.
Variable os_path_sep : string.
Variable as_py_other : Expr -> Evaluated PyValue.
Variable get_variable_value : Context -> string -> Result Expr.
Variable c : ascii.

Abbreviation as_py := (as_py os_path_sep as_py_other).
Abbreviation split depth e := (split get_variable_value depth e (String c EmptyString)).

(** The segment evaluates to the piece. *)
Abbreviation evaluates_to :=
  (fun (segment : Expr) (piece : string) =>
     as_py segment = Returned (PyStr piece)).

Lemma each_strings items values strings :
  each as_py items = Returned values ->
  strings_of values = Some strings ->
  Forall2 evaluates_to items strings.
Proof.
  revert values strings.
  induction items as [|i items IH]; intros values strings He Hs; simpl in He.
  - injection He as <-. injection Hs as <-. constructor.
  - destruct (as_py i) as [v|] eqn:Hi; [|done].
    destruct (each as_py items) as [vs|]; [|done]. injection He as <-.
    destruct v as [t| |]; try done. simpl in Hs.
    destruct (strings_of vs) as [ts|] eqn:Hts; [|done]. injection Hs as <-.
    constructor; [done|]. by eapply IH.
Qed.

Lemma join_empty_cons t ts :
  join_strings EmptyString (t :: ts) = t +:+ join_strings EmptyString ts.
Proof. apply (join_empty_app [t] ts). Qed.

Lemma split_loop_texts d items texts out p :
  Forall (fun i => forall s,
            as_py i = Returned (PyStr s) ->
            exists segments, split d i = Ok segments
                             /\ Forall2 evaluates_to segments (str_split c s))
         items ->
  Forall2 evaluates_to items texts ->
  Forall2 evaluates_to out (str_split c p) ->
  exists segments,
    split_loop (fun i => split d i) items out = Ok segments
    /\ Forall2 evaluates_to segments
         (str_split c (p +:+ join_strings EmptyString texts)).
Proof.
  intros Hitems. revert texts out p.
  induction Hitems as [|i items Hi _ IH]; intros texts out p Htexts Hout.
  - inversion Htexts; subst. exists out. split; [done|].
    by rewrite string_app_empty_r.
  - inversion Htexts as [|? t ? texts' Ht Htexts']; subst.
    destruct (Hi _ Ht) as (i_out & Hsplit & Hi_out).
    cbn [split_loop]. rewrite Hsplit. cbn [mbind Result_bind].
    destruct (str_split_snoc c p) as (pieces & piece & Hp).
    destruct (str_split_cons c t) as (first & rest & Hfirst).
    rewrite Hp in Hout. rewrite Hfirst in Hi_out.
    apply Forall2_app_inv_r in Hout as (A & l & HA & Hl & ->).
    inversion Hl as [|last_segment ? ? ? Hlast Hnil]; subst.
    inversion Hnil; subst.
    inversion Hi_out as [|first_segment ? i_rest ? Hf Hrest]; subst.
    rewrite expr_facts.splice_snoc.
    rewrite join_empty_cons, <- string_app_assoc.
    apply IH; [done|].
    rewrite (str_split_app c p t pieces piece first rest Hp Hfirst).
    apply Forall2_app; [done|]. apply Forall2_app; [|done].
    constructor; [|constructor].
    cbn beta in *. simpl. rewrite Hlast, Hf. unfold join. simpl.
    by rewrite string_app_empty_l.
Qed.

Lemma nesting_item i items :
  i ∈ items ->
  (nesting i <= foldr (fun i n => Nat.max (nesting i) n) O items)%nat.
Proof.
  induction 1 as [i items|i j items _ IH]; simpl; lia.
Qed.

Lemma split_text e :
  is_text e = true ->
  forall depth s,
    (nesting e < depth)%nat ->
    as_py e = Returned (PyStr s) ->
    exists segments,
      split depth e = Ok segments
      /\ Forall2 evaluates_to segments (str_split c s).
Proof.
  induction e as [items IH|items IH|components anchor IH|e Hl Hc Hp]
    using expr_facts.Expr_items_ind; intros Htext depth s Hdepth Hs;
    try done.
  - destruct depth as [|d]; [lia|]. simpl in Hdepth.
    destruct items as [|i0 rest]; [done|]. cbn [is_text] in Htext.
    assert (Hall : Forall (fun i => forall s,
                     as_py i = Returned (PyStr s) ->
                     exists segments, split d i = Ok segments
                       /\ Forall2 evaluates_to segments (str_split c s))
                   (i0 :: rest)).
    { rewrite Forall_forall in IH. apply Forall_forall. intros i Hi t Ht.
      apply IH; [done| | |done].
      - rewrite forallb_forall in Htext. by apply Htext, list_elem_of_In.
      - pose proof (nesting_item _ _ Hi). lia. }
    cbn [expr.as_py] in Hs.
    destruct (each as_py (i0 :: rest)) as [values|] eqn:Hvalues; [|done].
    unfold join in Hs. destruct (strings_of values) as [texts|] eqn:Htexts;
      [|done].
    injection Hs as <-.
    pose proof (each_strings _ _ _ Hvalues Htexts) as Hitems.
    inversion Hitems as [|? t0 ? texts' Ht0 Hrest]; subst.
    inversion Hall as [|? ? Hi0 Hall']; subst.
    destruct (Hi0 _ Ht0) as (out0 & Hsplit0 & Hout0).
    cbn [expr.split split_loop]. rewrite Hsplit0.
    cbn [mbind Result_bind splice last].
    rewrite join_empty_cons. by apply split_loop_texts.
  - destruct e; try done; try (by edestruct Hc).
    destruct depth as [|d]; [lia|]. injection Hs as <-.
    eexists. split; [done|].
    induction (str_split c value); constructor; done.
Qed.

End SplitText.

(** X13: [split] keeps the text.  For a text, i.e. a literal or a nest of
    non-empty concatenations of literals, that evaluates to the string [s],
    and a recursion depth above its nesting, [split] returns segments that
    evaluate to strings which, joined with the separator, give [s] again,
    and none of which contains the separator. *)
Theorem split_keeps_text os_path_sep as_py_other get_variable_value c e
    depth s :
  is_text e = true ->
  (nesting e < depth)%nat ->
  as_py os_path_sep as_py_other e = Returned (PyStr s) ->
  exists segments pieces,
    split get_variable_value depth e (String c EmptyString) = Ok segments
    /\ Forall2 (fun segment piece =>
                  as_py os_path_sep as_py_other segment
                  = Returned (PyStr piece)) segments pieces
    /\ join_strings (String c EmptyString) pieces = s
    /\ Forall (fun piece => free_of c piece = true) pieces.
Proof.
  intros Htext Hdepth Hs.
  destruct (split_text os_path_sep as_py_other get_variable_value c e Htext
              depth s Hdepth Hs) as (segments & Hsplit & Hsegments).
  exists segments, (str_split c s). split; [done|]. split; [done|].
  split; [apply str_split_join | apply str_split_free].
Qed.

Lemma split_keeps_text_witness :
  exists segments pieces,
    split model.sample_lookup 3
      (ConcatExpr [LiteralExpr "src/li";
                   ConcatExpr [LiteralExpr "b/"; LiteralExpr "a.c"]]) "/"
    = Ok segments
    /\ Forall2 (fun segment piece =>
                  as_py "/" (fun _ => Raised JoinTypeError) segment
                  = Returned (PyStr piece)) segments pieces
    /\ join_strings "/" pieces = "src/lib/a.c"
    /\ Forall (fun piece => free_of "/" piece = true) pieces.
Proof.
  apply (split_keeps_text "/" (fun _ => Raised JoinTypeError)
           model.sample_lookup "/"%char).
  - reflexivity.
  - simpl. lia.
  - reflexivity.
Defined.

End evaluation_facts.

(** ** The builder: assignments in general *)

Module assignment_facts.
Import model builder.

Lemma get_variable_add_other ps scope name var scope' name' :
  (scope', name') <> (scope, name) ->
  get_variable (add_variable scope name var ps) scope' name'
  = get_variable ps scope' name'.
Proof.
  intros Hne. unfold get_variable, add_variable.
  destruct (decide (scope = scope')) as [->|Hs].
  - rewrite lookup_insert_eq. simpl. rewrite lookup_insert_ne; [done|].
    intros ->. by apply Hne.
  - by rewrite lookup_insert_ne.
Qed.

Lemma get_variable_update_other ps scope name f scope' name' :
  (scope', name') <> (scope, name) ->
  get_variable (update_variable scope name f ps) scope' name'
  = get_variable ps scope' name'.
Proof.
  intros Hne. unfold update_variable.
  destruct (get_variable ps scope name); [|done].
  by apply get_variable_add_other.
Qed.

(** Composition of methods, for a relation that is a preorder. *)

Section Relates.
Context (R : Builder -> Builder -> Prop) `{!PreOrder R}.

Lemma relates_ret {A : Type} (a : A) : relates R (mret a).
Proof. intros self. simpl. reflexivity. Qed.

Lemma relates_raise {A : Type} exn : relates R (@raise A exn).
Proof. intros self. simpl. reflexivity. Qed.

Lemma relates_lift {A : Type} (r : Result A) : relates R (lift r).
Proof. intros self. simpl. reflexivity. Qed.

Lemma relates_gets {A : Type} (f : Builder -> A) : relates R (gets f).
Proof. intros self. simpl. reflexivity. Qed.

Lemma relates_modify (f : Builder -> Builder) :
  (forall self, R self (f self)) -> relates R (modify f).
Proof. intros Hf self. apply Hf. Qed.

Lemma relates_bind {A B : Type} (m : M A) (f : A -> M B) :
  relates R m -> (forall a, relates R (f a)) -> relates R (m ≫= f).
Proof.
  intros Hm Hf self. unfold mbind, M_bind. specialize (Hm self).
  destruct (m self) as [[a|exn] self1]; simpl in *; [|done].
  etrans; [exact Hm | apply Hf].
Qed.

Lemma relates_lift_bind {A B : Type} (r : Result A) (f : A -> M B) :
  (forall a, r = Ok a -> relates R (f a)) -> relates R (lift r ≫= f).
Proof.
  intros Hf self. unfold mbind, M_bind, lift. destruct r as [a|exn]; simpl.
  - by apply Hf.
  - reflexivity.
Qed.

End Relates.

#[local] Instance same_elsewhere_preorder scope varname :
  PreOrder (same_elsewhere scope varname).
Proof.
  split.
  - by intros self.
  - intros s1 s2 s3 (Hc1 & Hs1 & Hv1) (Hc2 & Hs2 & Hv2).
    split; [congruence|]. split; [congruence|].
    intros scope' name' Hne. by rewrite Hv2, Hv1.
Qed.

Lemma same_elsewhere_add scope varname var self :
  same_elsewhere scope varname self
    (set_parts (add_variable scope varname var (parts self)) self).
Proof.
  split; [done|]. split; [done|]. intros scope' name' Hne.
  by apply get_variable_add_other.
Qed.

Lemma same_elsewhere_update scope varname f self :
  same_elsewhere scope varname self
    (set_parts (update_variable scope varname f (parts self)) self).
Proof.
  split; [done|]. split; [done|]. intros scope' name' Hne.
  by apply get_variable_update_other.
Qed.

Lemma same_elsewhere_warning scope varname w self :
  same_elsewhere scope varname self (warning w self).
Proof. by split. Qed.

Ltac relates_step :=
  match goal with
  | |- relates _ (lift _ ≫= _) =>
      apply relates_lift_bind; [apply _|]; intros ? ?
  | |- relates _ (_ ≫= _) => apply relates_bind; [apply _| |intros ?]
  | |- relates _ (modify (warning _)) =>
      apply relates_modify; intros ?; apply same_elsewhere_warning
  | |- relates _ (modify _) =>
      apply relates_modify; intros ?;
      first [apply same_elsewhere_add | apply same_elsewhere_update]
  | |- relates _ (mret _) => apply relates_ret; apply _
  | |- relates _ (raise _) => apply relates_raise; apply _
  | |- relates _ (gets _) => apply relates_gets; apply _
  | |- relates _ (lift _) => apply relates_lift; apply _
  | H : Ok _ = Ok _ |- _ => injection H as <-
  | H : Raise _ = Ok _ |- _ => discriminate H
  | |- relates _ (match ?x with _ => _ end) => destruct x
  end.

Lemma bind_gets {A B : Type} (f : Builder -> A) (k : A -> M B) self :
  (gets f ≫= k) self = k (f self) self.
Proof. reflexivity. Qed.

Lemma on_assignment_elsewhere get_prop append varname node_value self scope :
  context self = Some scope \/ context self = None ->
  same_elsewhere scope varname self
    (on_assignment get_prop append varname node_value self).2.
Proof.
  intros Hctx. unfold on_assignment. rewrite bind_gets.
  destruct Hctx as [Hctx|Hctx]; rewrite Hctx; clear Hctx;
    match goal with
    | |- same_elsewhere ?h ?v ?s (?m ?s).2 =>
        revert s; change (relates (same_elsewhere h v) m)
    end.
  - repeat relates_step.
  - repeat relates_step.
Qed.

(** X14: an assignment or an append changes at most the one variable it
    names, in the scope the builder is in: whether it returns or raises, the
    context and the stack of conditions are as before, and every variable of
    another scope, and every other variable of the current scope, is as
    before. *)
Theorem on_assignment_changes_one_variable get_prop append varname node_value
    self :
  let self' := (on_assignment get_prop append varname node_value self).2 in
  context self' = context self
  /\ if_cond_stack self' = if_cond_stack self
  /\ forall scope' name',
       (context self = Some scope' -> name' <> varname) ->
       get_variable (parts self') scope' name'
       = get_variable (parts self) scope' name'.
Proof.
  intros self'. subst self'.
  destruct (context self) as [scope|] eqn:Hctx.
  - destruct (on_assignment_elsewhere get_prop append varname node_value
                self scope) as (Hc & Hs & Hv); [by left|].
    split; [congruence|]. split; [done|]. intros scope' name' Hne.
    apply Hv. intros [= -> ->]. by apply Hne.
  - destruct (on_assignment_elsewhere get_prop append varname node_value
                self []) as (Hc & Hs & Hv); [by right|].
    split; [congruence|]. split; [done|]. intros scope' name' _.
    destruct (on_assignment_elsewhere get_prop append varname node_value
                self (0%nat :: scope')) as (_ & _ & Hv'); [by right|].
    apply Hv'. intros [= Hlen]. apply (f_equal length) in Hlen.
    simpl in Hlen. lia.
Qed.

(** Building expressions. *)

Lemma ExprNode_values_ind (P : ExprNode -> Prop) :
  (forall text, P (LiteralNode text)) ->
  (forall value, P (BoolvalNode value)) ->
  (forall var, P (VarReferenceNode var)) ->
  (forall values, Forall P values -> P (ListNode values)) ->
  (forall values, Forall P values -> P (ConcatNode values)) ->
  (forall lhs, P lhs -> P (NotNode lhs)) ->
  (forall lhs rhs, P lhs -> P rhs -> P (AndNode lhs rhs)) ->
  (forall lhs rhs, P lhs -> P rhs -> P (OrNode lhs rhs)) ->
  (forall lhs rhs, P lhs -> P rhs -> P (EqualNode lhs rhs)) ->
  (forall lhs rhs, P lhs -> P rhs -> P (NotEqualNode lhs rhs)) ->
  forall ast, P ast.
Proof.
  intros HLit HBool HVar HList HConcat HNot HAnd HOr HEq HNe.
  fix IH 1. intros ast.
  assert (Hall : forall values, Forall P values).
  { induction values as [|v values IHvalues]; constructor; [apply IH | done]. }
  destruct ast;
    [ apply HLit | apply HBool | apply HVar | apply HList, Hall
    | apply HConcat, Hall | apply HNot, IH | apply HAnd; apply IH
    | apply HOr; apply IH | apply HEq; apply IH | apply HNe; apply IH ].
Qed.

Abbreviation builds_in ctxt :=
  (fun ast =>
     if well_formed ast
     then exists e, _build_expression ctxt ast = Ok e /\ references_in ctxt e
     else _build_expression ctxt ast = Raise AssertionError).

Lemma comprehension_builds ctxt values :
  Forall (builds_in ctxt) values ->
  if forallb well_formed values
  then exists items,
         comprehension (_build_expression ctxt) values = Ok items
         /\ length items = length values
         /\ foldr (fun i rest => references_in ctxt i /\ rest) True items
  else comprehension (_build_expression ctxt) values = Raise AssertionError.
Proof.
  induction 1 as [|ast values Hast _ IH]; simpl.
  { by exists []. }
  cbn beta in Hast. destruct (well_formed ast); simpl.
  - destruct Hast as (e & -> & He).
    destruct (forallb well_formed values).
    + destruct IH as (items & -> & Hlen & Hitems).
      exists (e :: items). simpl. by rewrite Hlen.
    + by rewrite IH.
  - by rewrite Hast.
Qed.

Lemma build_expression_builds ctxt ast : builds_in ctxt ast.
Proof.
  cbn beta. induction ast as
    [text|value|var|values IH|values IH|lhs IH
    |lhs rhs IHl IHr|lhs rhs IHl IHr|lhs rhs IHl IHr|lhs rhs IHl IHr]
    using ExprNode_values_ind; simpl.
  - by eexists.
  - by eexists.
  - by eexists.
  - apply (comprehension_builds ctxt) in IH.
    destruct (forallb well_formed values).
    + destruct IH as (items & -> & _ & Hitems). by eexists.
    + by rewrite IH.
  - apply (comprehension_builds ctxt) in IH.
    destruct values as [|v values]; [done|].
    destruct (forallb well_formed (v :: values)).
    + destruct IH as (items & -> & Hlen & Hitems).
      destruct items; [done|]. by eexists.
    + by rewrite IH.
  - destruct (well_formed lhs).
    + destruct IH as (l & -> & Hl). by eexists.
    + by rewrite IH.
  - destruct (well_formed lhs); [|by rewrite IHl].
    destruct IHl as (l & -> & Hl). simpl.
    destruct (well_formed rhs); [|by rewrite IHr].
    destruct IHr as (r & -> & Hr). by eexists.
  - destruct (well_formed lhs); [|by rewrite IHl].
    destruct IHl as (l & -> & Hl). simpl.
    destruct (well_formed rhs); [|by rewrite IHr].
    destruct IHr as (r & -> & Hr). by eexists.
  - destruct (well_formed lhs); [|by rewrite IHl].
    destruct IHl as (l & -> & Hl). simpl.
    destruct (well_formed rhs); [|by rewrite IHr].
    destruct IHr as (r & -> & Hr). by eexists.
  - destruct (well_formed lhs); [|by rewrite IHl].
    destruct IHl as (l & -> & Hl). simpl.
    destruct (well_formed rhs); [|by rewrite IHr].
    destruct IHr as (r & -> & Hr). by eexists.
Qed.

(** X15: [create_expression] moves the builder into the parent scope and
    leaves it there.  It returns an expression exactly when no
    concatenation node of the tree is without values, and then every
    reference of the expression carries the parent scope; otherwise it
    raises [AssertionError]. *)
Theorem create_expression_builds ast parent self :
  let (outcome, self') := create_expression ast parent self in
  self' = set_context parent self
  /\ if well_formed ast
     then exists e, outcome = Ok e /\ references_in parent e
     else outcome = Raise AssertionError.
Proof.
  unfold create_expression, mbind, M_bind, modify, gets, lift. simpl.
  split; [done|]. apply build_expression_builds.
Qed.

(** What an assignment stores. *)

Ltac run_assignment :=
  unfold on_assignment, mbind, M_bind, gets, lift, modify, mret, M_ret, raise.

Ltac stored :=
  cbn beta iota;
  cbn [parts set_parts warning orb type from_property model.value];
  eexists; (split; [reflexivity|]);
  cbn [parts set_parts warning];
  rewrite ?builder_facts.get_variable_update, ?builder_facts.get_variable_add;
  try match goal with
      | H : get_variable _ _ _ = Some _ |- _ => rewrite H
      end;
  cbn [fmap option_fmap option_map set_value set_type model.value type
         from_property default id].

(** X16: a plain assignment whose value can be built never fails.  It
    leaves, in the current scope, a variable holding the built value (wrapped
    with the active condition, when there is one, around the previous
    value), whose type is that of the local variable if there was one, else
    that of the property of that name, else that of the variable inherited
    from an enclosing scope, else the undetermined type. *)
Theorem assignment_stores get_prop varname node_value self scope value :
  context self = Some scope ->
  varname <> EmptyString ->
  _build_expression (Some scope) node_value = Ok value ->
  exists self',
    on_assignment get_prop false varname node_value self = (Ok tt, self')
    /\ get_variable (parts self') scope varname
       = Some {| model.value :=
                   match active_if_cond self with
                   | Some c =>
                       conditional_set_value c value
                         (conditional_previous_value get_prop (parts self)
                            scope varname)
                   | None => value
                   end;
                 type := default AnyType
                           (assigned_type get_prop (parts self) scope varname)
              |}.
Proof.
  intros Hctx Hname Hvalue. run_assignment.
  rewrite Hctx, Hvalue. destruct varname as [|ch rest]; [done|].
  unfold conditional_previous_value, assigned_type, conditional_set_value.
  destruct (active_if_cond self) as [c|];
    destruct (Ascii.eqb ch "_"); cbn [parts warning];
    destruct (get_variable (parts self) scope _) as [var|] eqn:Hvar;
    cbn beta iota; cbn [parts warning].
  all: try (rewrite ?(builder_facts.resolve_variable_found _ _ _ _ Hvar);
            by stored).
  all: destruct (resolve_variable (parts self) scope _) as [pv|] eqn:Hres;
    destruct (get_prop scope _) as [prop|] eqn:Hprop; by stored.
Qed.

Lemma assignment_stores_witness :
  exists self',
    on_assignment no_properties false "a" three builder_in_if = (Ok tt, self')
    /\ get_variable (parts self') [0%nat] "a"
       = Some {| model.value :=
                   match active_if_cond builder_in_if with
                   | Some c =>
                       conditional_set_value c (ListExpr [LiteralExpr "3"])
                         (conditional_previous_value no_properties
                            (parts builder_in_if) [0%nat] "a")
                   | None => ListExpr [LiteralExpr "3"]
                   end;
                 type := default AnyType
                           (assigned_type no_properties (parts builder_in_if)
                              [0%nat] "a") |}.
Proof.
  apply (assignment_stores no_properties "a" three builder_in_if [0%nat]
           (ListExpr [LiteralExpr "3"])); [reflexivity|done|reflexivity].
Defined.

Lemma appended_value_items previous value :
  appended_value previous value
  = ListExpr (previous_items previous ++ new_items value).
Proof. by destruct previous. Qed.

Ltac finish_stored Hty :=
  rewrite ?appended_value_items; unfold set_value, set_type, from_property;
  cbn [model.value type promoted]; by rewrite ?Hty.

(** X17: an append to a variable that has a previous value and whose type
    is a list type or undetermined succeeds.  The variable of the current
    scope then holds the items of the previous value (or the previous value
    as one item) followed by the new items, each wrapped with the active
    condition when there is one; an undetermined type has become a list
    type, a list type is kept. *)
Theorem append_stores get_prop varname node_value self scope value pv t :
  context self = Some scope ->
  varname <> EmptyString ->
  _build_expression (Some scope) node_value = Ok value ->
  conditional_previous_value get_prop (parts self) scope varname = Some pv ->
  assigned_type get_prop (parts self) scope varname = Some t ->
  (forall n, t <> OtherType n) ->
  exists self',
    on_assignment get_prop true varname node_value self = (Ok tt, self')
    /\ get_variable (parts self') scope varname
       = Some {| model.value :=
                   ListExpr
                     (previous_items (model.value pv)
                      ++ new_items
                           match active_if_cond self with
                           | Some c => conditional_append_value c value
                           | None => value
                           end);
                 type := promoted t |}.
Proof.
  intros Hctx Hname Hvalue Hprev Htype Hlist. run_assignment.
  rewrite Hctx, Hvalue. destruct varname as [|ch rest]; [done|].
  unfold conditional_previous_value in Hprev. unfold assigned_type in Htype.
  destruct (active_if_cond self) as [c|];
    destruct (Ascii.eqb ch "_"); cbn [parts warning];
    destruct (get_variable (parts self) scope _) as [var|] eqn:Hvar;
    cbn beta iota; cbn [parts warning].
  all: try (rewrite (builder_facts.resolve_variable_found _ _ _ _ Hvar)
              in Hprev;
            injection Hprev as ->; injection Htype as <-;
            destruct (type pv) eqn:Hty;
            [ | | exfalso; by eapply Hlist];
            stored; finish_stored Hty).
  all: destruct (resolve_variable (parts self) scope _) as [pv'|] eqn:Hres;
    destruct (get_prop scope _) as [prop|] eqn:Hprop;
    cbn [fmap option_fmap option_map] in Hprev, Htype;
    try discriminate; injection Hprev as <-; injection Htype as <-.
  all: cbn beta iota; cbn [parts set_parts warning orb type from_property].
  all: try (destruct (prop_type prop) eqn:Hty;
            [ | | exfalso; by eapply Hlist];
            stored; finish_stored Hty).
  all: destruct (type pv') eqn:Hty;
    [ | | exfalso; by eapply Hlist];
    stored; finish_stored Hty.
Qed.

Lemma append_stores_witness :
  exists self',
    on_assignment no_properties true "defines" three builder_in_target
    = (Ok tt, self')
    /\ get_variable (parts self') [1%nat; 0%nat] "defines"
       = Some {| model.value :=
                   ListExpr
                     (previous_items (ListExpr [LiteralExpr "A"])
                      ++ new_items
                           match active_if_cond builder_in_target with
                           | Some c =>
                               conditional_append_value c
                                 (ListExpr [LiteralExpr "3"])
                           | None => ListExpr [LiteralExpr "3"]
                           end);
                 type := promoted (ListType AnyType) |}.
Proof.
  apply (append_stores no_properties "defines" three builder_in_target
           [1%nat; 0%nat] (ListExpr [LiteralExpr "3"])
           {| model.value := ListExpr [LiteralExpr "A"];
              type := ListType AnyType |} (ListType AnyType));
    [reflexivity|done|reflexivity|by vm_compute|by vm_compute|done].
Defined.

(** X18: an append to a variable whose type is known and is not a list type
    raises the parser error that names the variable and its type, whether the
    variable is local, comes from a property or is inherited.  The error
    comes after the variable was created in the current scope: a local
    variable of that type exists afterwards, and nothing at all was changed
    when it existed before. *)
Theorem append_to_non_list_variable get_prop varname node_value self scope n :
  context self = Some scope ->
  varname <> EmptyString ->
  is_Ok (_build_expression (Some scope) node_value) ->
  assigned_type get_prop (parts self) scope varname = Some (OtherType n) ->
  exists self',
    on_assignment get_prop true varname node_value self
    = (Raise (ParserError
                (cannot_append_to_non_list_variable varname (OtherType n))),
       self')
    /\ type <$> get_variable (parts self') scope varname
       = Some (OtherType n)
    /\ (get_variable (parts self) scope varname <> None ->
        parts self' = parts self).
Proof.
  intros Hctx Hname [value Hvalue] Htype. run_assignment.
  rewrite Hctx, Hvalue. destruct varname as [|ch rest]; [done|].
  unfold assigned_type in Htype.
  destruct (Ascii.eqb ch "_"); cbn [parts warning];
    destruct (get_variable (parts self) scope _) as [var|] eqn:Hvar;
    cbn beta iota; cbn [parts warning].
  all: try (injection Htype as Hty; rewrite Hty;
            eexists; (split; [reflexivity|]);
            cbn [parts warning]; by rewrite Hvar, <- Hty).
  all: destruct (resolve_variable (parts self) scope _) as [pv'|] eqn:Hres;
    destruct (get_prop scope _) as [prop|] eqn:Hprop;
    cbn [fmap option_fmap option_map] in Htype;
    try discriminate; injection Htype as Hty.
  all: cbn beta iota;
    cbn [parts set_parts warning orb type from_property model.value];
    rewrite Hty; eexists; (split; [reflexivity|]);
    cbn [parts set_parts warning];
    rewrite builder_facts.get_variable_add; by rewrite <- Hty.
Qed.

Lemma append_to_non_list_variable_witness :
  exists self',
    on_assignment no_properties true "flag" three builder_in_target
    = (Raise (ParserError
                (cannot_append_to_non_list_variable "flag"
                   (OtherType "bool"))),
       self')
    /\ type <$> get_variable (parts self') [1%nat; 0%nat] "flag"
       = Some (OtherType "bool")
    /\ (get_variable (parts builder_in_target) [1%nat; 0%nat] "flag" <> None ->
        parts self' = parts builder_in_target).
Proof.
  apply (append_to_non_list_variable no_properties "flag" three
           builder_in_target [1%nat; 0%nat] "bool");
    [reflexivity|done|by eexists|by vm_compute].
Defined.

(** Warnings. *)

Abbreviation same_warnings :=
  (fun self self' : Builder => warnings self' = warnings self).

#[local] Instance same_warnings_preorder : PreOrder same_warnings.
Proof.
  split.
  - by intros self.
  - intros s1 s2 s3 H1 H2. cbn beta in *. congruence.
Qed.

Ltac warnings_step :=
  match goal with
  | |- relates _ (lift _ ≫= _) =>
      apply relates_lift_bind; [apply _|]; intros ? ?
  | |- relates _ (_ ≫= _) => apply relates_bind; [apply _| |intros ?]
  | |- relates _ (modify _) => apply relates_modify; by intros ?
  | |- relates _ (mret _) => apply relates_ret; apply _
  | |- relates _ (raise _) => apply relates_raise; apply _
  | |- relates _ (gets _) => apply relates_gets; apply _
  | |- relates _ (lift _) => apply relates_lift; apply _
  | |- relates _ (match ?x with _ => _ end) => destruct x
  end.

(** X19: an assignment or an append warns about a reserved name exactly when
    its value could be built and the name begins with an underscore, and it
    warns once, whatever happens to the assignment afterwards; it emits no
    other warning. *)
Theorem assignment_warns_about_reserved_names get_prop append varname
    node_value self :
  warnings (on_assignment get_prop append varname node_value self).2
  = warnings self
    ++ match _build_expression (context self) node_value with
       | Ok _ => expected_warnings varname
       | Raise _ => []
       end.
Proof.
  unfold on_assignment. rewrite bind_gets.
  unfold mbind at 1, M_bind at 1, lift at 1.
  destruct (_build_expression (context self) node_value) as [value|exn].
  2:{ simpl. by rewrite app_nil_r. }
  unfold mbind at 1, M_bind at 1, gets at 1.
  unfold mbind at 1, M_bind at 1, lift at 1.
  destruct varname as [|ch rest].
  { simpl. by rewrite app_nil_r. }
  set (ctxt := context self). set (active := active_if_cond self).
  clearbody ctxt active.
  match goal with
  | |- warnings ((_ ≫= ?k) _).2 = _ =>
      assert (Hk : relates same_warnings (k tt))
        by (cbn beta; repeat warnings_step)
  end.
  unfold mbind at 1, M_bind at 1, expected_warnings.
  destruct (Ascii.eqb ch "_").
  - etrans; [apply (Hk (warning _ self))|]. done.
  - etrans; [apply (Hk self)|]. by rewrite app_nil_r.
Qed.

(** Statements and blocks. *)

Lemma for_children_app {N : Type} (h : N -> M unit) pre post self :
  for_children h (pre ++ post) self
  = match for_children h pre self with
    | (Ok _, self1) => for_children h post self1
    | (Raise exn, self1) => (Raise exn, self1)
    end.
Proof.
  revert self. induction pre as [|n pre IH]; intros self; simpl; [done|].
  destruct (h n self) as [[[]|exn] self1]; [apply IH | done].
Qed.

(** X20: [handle_children] stops at the first child whose handler raises:
    the children after it are not handled, the exception is the one the
    handler raised, and the builder is left as that handler left it, with
    the context restored. *)
Theorem handle_children_stops_at_first_error {N : Type} (h : N -> M unit)
    pre n post ctxt self self1 self2 exn :
  for_children h pre (set_context ctxt self) = (Ok tt, self1) ->
  h n self1 = (Raise exn, self2) ->
  handle_children h (pre ++ n :: post) ctxt self
  = (Raise exn, set_context (context self) self2).
Proof.
  intros Hpre Hn. unfold handle_children.
  rewrite for_children_app, Hpre. simpl. by rewrite Hn.
Qed.

Lemma handle_children_stops_at_first_error_witness :
  handle_children (_handle_node no_properties)
    ([AssignmentNode "a" one_two]
     ++ AppendNode "b" three :: [AssignmentNode "c" three])
    (Some [0%nat]) fresh_builder
  = (Raise (ParserError (unknown_variable "b")),
     set_context (context fresh_builder)
       (for_children (_handle_node no_properties)
          [AssignmentNode "a" one_two]
          (set_context (Some [0%nat]) fresh_builder)).2).
Proof.
  apply (handle_children_stops_at_first_error (_handle_node no_properties)
           [AssignmentNode "a" one_two] (AppendNode "b" three)
           [AssignmentNode "c" three] (Some [0%nat]) fresh_builder
           (for_children (_handle_node no_properties)
              [AssignmentNode "a" one_two]
              (set_context (Some [0%nat]) fresh_builder)).2);
    by vm_compute.
Defined.








(** X23: [create_model] leaves the builder inside the module it created,
    whether the children were handled or one of them raised, and its
    assertion on the context never fails: it returns the new module when
    every child is handled, and otherwise raises what the child raised. *)
Theorem create_model_enters_module get_prop new_module children parent self :
  let module := (new_module parent (parts self)).1 in
  let inside :=
    set_context (Some module)
      (set_parts (new_module parent (parts self)).2 self) in
  let run := create_model get_prop new_module children parent self in
  context run.2 = Some module
  /\ run.1 = match (for_children (_handle_node get_prop) children inside).1
             with
             | Ok _ => Ok module
             | Raise exn => Raise exn
             end.
Proof.
  intros module inside run. subst run.
  unfold create_model, mbind, M_bind, modify, gets, handle_children.
  destruct (new_module parent (parts self)) as [h ps] eqn:HM.
  simpl in module, inside. subst module.
  change (set_context (Some h) (set_parts ps self)) with inside.
  replace (set_context (context inside) inside) with inside by done.
  pose proof (builder_facts.for_children_keeps_context
                (_handle_node get_prop) children inside
                (fun n0 s0 => builder_facts._handle_node_keeps_context
                                get_prop n0 s0)) as Hctx.
  destruct (for_children (_handle_node get_prop) children inside)
    as [[[]|exn] self'] eqn:Hfor; simpl in Hctx; cbn [fst snd].
  - cbn [context set_context]. by rewrite bool_decide_eq_true_2.
  - done.
Qed.

End assignment_facts.
